(** * The CSI snapshot exposer of Velero (pkg/exposer/csi_snapshot.go)

    A shallow embedding of [csiSnapshotExposer]: [Expose], [GetExposed],
    [PeekExposed], [DiagnoseExpose], [CleanUp] and the constructors of the
    backup objects.  Every call that leaves the exposer (typed clients,
    pkg/util/csi, pkg/util/kube, pkg/nodeagent, the logger) is an event of an
    inductive program type, so that a run of a function is the list of
    calls it issued together with the answers it received. *)

From stdpp Require Import gmap strings list.
From Stdlib Require Import ZArith Ascii.

Local Open Scope Z_scope.

(** ** Go base types *)

(** [time.Duration]: a count of nanoseconds. *)
Definition Duration := Z.
Definition Minute : Duration := 60 * 1000000000.

(** [resource.Quantity], by its value in base units. *)
Definition Quantity := Z.
Definition IsZero (q : Quantity) : bool := q =? 0.

(** ** Errors (github.com/pkg/errors, k8s.io/apimachinery/pkg/api/errors)

    An error value carries the status reason of the API answer it stems
    from and its message; wrapping keeps the reason (IsNotFound looks
    through wrappers) and prefixes the message.  [error] is the Go
    interface value: [None] is [nil]. *)
Inductive StatusReason :=
| StatusReasonUnknown
| StatusReasonNotFound
| StatusReasonAlreadyExists
| StatusReasonTimeout.

Record Err := mkErr { errReason : StatusReason; Error : string }.

Definition error := option Err.

Definition New (message : string) : Err := mkErr StatusReasonUnknown message.

Definition Errorf (message : string) : error := Some (New message).

Definition Wrap (err : error) (message : string) : error :=
  match err with
  | None => None
  | Some e => Some (mkErr (errReason e) (message +:+ ": " +:+ Error e))
  end.

Definition Wrapf := Wrap.

Definition IsNotFound (err : error) : bool :=
  match err with
  | Some (mkErr StatusReasonNotFound _) => true
  | _ => false
  end.
Global Arguments IsNotFound : simpl never.

(** A Go result pair (pointer, error) of which exactly one side is set. *)
Inductive res (T : Type) :=
| Ok (v : T)
| Fail (e : Err).
Arguments Ok {T} v.
Arguments Fail {T} e.

(** ** Kubernetes payloads the exposer only passes through *)
Class PassThrough := {
  LoadAffinity : Type;          (* kube.LoadAffinity *)
  Affinity : Type;              (* corev1api.Affinity *)
  ResourceRequirements : Type;  (* corev1api.ResourceRequirements *)
  EnvVar : Type;
  EnvFromSource : Type;
  PodDNSConfig : Type;
  VolumeMount : Type;
  VolumeDevice : Type;
  OtherVolumeSource : Type;     (* the volume sources besides a claim *)
}.

(** ** metav1 and corev1 object model (the fields the exposer touches) *)

Record ObjectReference := {
  or_Kind : string;
  or_Namespace : string;
  or_Name : string;
  or_UID : string;
  or_APIVersion : string;
  or_ResourceVersion : string;
}.

Record OwnerReference := {
  ow_APIVersion : string;
  ow_Kind : string;
  ow_Name : string;
  ow_UID : string;
  ow_Controller : option bool;
}.

Record ObjectMeta := {
  Name : string;
  Namespace : string;
  UID : string;
  ResourceVersion : string;
  Labels : gmap string string;
  Annotations : gmap string string;
  OwnerReferences : list OwnerReference;
}.

Record NamespacedName := { nn_Namespace : string; nn_Name : string }.

(** ** snapshotv1api *)

Inductive DeletionPolicy :=
| VolumeSnapshotContentDelete
| VolumeSnapshotContentRetain.

Record VolumeSnapshotSource := {
  vss_PersistentVolumeClaimName : option string;
  vss_VolumeSnapshotContentName : option string;
}.

Record VolumeSnapshotSpec := {
  vs_Source : VolumeSnapshotSource;
  vs_VolumeSnapshotClassName : option string;
}.

Record VolumeSnapshotStatus := {
  vs_BoundVolumeSnapshotContentName : option string;
  vs_ReadyToUse : option bool;
  vs_RestoreSize : option Quantity;
}.

Record VolumeSnapshot := {
  vs_Meta : ObjectMeta;
  vs_Spec : VolumeSnapshotSpec;
  vs_Status : option VolumeSnapshotStatus;     (* a pointer in Go *)
}.

Record VolumeSnapshotContentSource := {
  vscs_VolumeHandle : option string;
  vscs_SnapshotHandle : option string;
}.

Record VolumeSnapshotContentSpec := {
  vsc_VolumeSnapshotRef : ObjectReference;
  vsc_Source : VolumeSnapshotContentSource;
  vsc_DeletionPolicy : DeletionPolicy;
  vsc_Driver : string;
  vsc_VolumeSnapshotClassName : option string;
}.

Record VolumeSnapshotContentStatus := {
  vsc_SnapshotHandle : option string;
  vsc_ReadyToUse : option bool;
}.

Record VolumeSnapshotContent := {
  vsc_Meta : ObjectMeta;
  vsc_Spec : VolumeSnapshotContentSpec;
  vsc_Status : option VolumeSnapshotContentStatus;   (* a pointer in Go *)
}.

(** [snapshotv1api.SchemeGroupVersion.Group] *)
Definition SchemeGroupVersion_Group : string := "snapshot.storage.k8s.io".

(** ** corev1api: claims and volumes *)

Definition PersistentVolumeMode := string.
Definition PersistentVolumeFilesystem : PersistentVolumeMode := "Filesystem".
Definition PersistentVolumeBlock : PersistentVolumeMode := "Block".

Definition PersistentVolumeAccessMode := string.
Definition ReadWriteOnce : PersistentVolumeAccessMode := "ReadWriteOnce".
Definition ReadOnlyMany : PersistentVolumeAccessMode := "ReadOnlyMany".

Definition ResourceStorage : string := "storage".

Record TypedLocalObjectReference := {
  tl_APIGroup : option string;
  tl_Kind : string;
  tl_Name : string;
}.

Record PersistentVolumeClaimSpec := {
  pvc_AccessModes : list PersistentVolumeAccessMode;
  pvc_StorageClassName : option string;
  pvc_VolumeMode : option PersistentVolumeMode;
  pvc_DataSource : option TypedLocalObjectReference;
  pvc_DataSourceRef : option TypedLocalObjectReference;
  pvc_Requests : gmap string Quantity;        (* Resources.Requests *)
  pvc_VolumeName : string;
}.

Record PersistentVolumeClaim := {
  pvc_Meta : ObjectMeta;
  pvc_Spec : PersistentVolumeClaimSpec;
}.

Record PersistentVolume := {
  pv_Meta : ObjectMeta;
  pv_ReclaimPolicy : string;
}.

(** ** corev1api: pods *)

Record PersistentVolumeClaimVolumeSource := {
  ClaimName : string;
  cv_ReadOnly : bool;
}.

Record VolumeSource `{PassThrough} := {
  vsrc_PersistentVolumeClaim : option PersistentVolumeClaimVolumeSource;
  vsrc_Other : option OtherVolumeSource;
}.

Record Volume `{PassThrough} := {
  vol_Name : string;
  vol_VolumeSource : VolumeSource;
}.

Record SELinuxOptions := { se_Type : string }.

Record WindowsSecurityContextOptions := { RunAsUserName : option string }.

Record PodSecurityContext := {
  SELinuxOptions_ : option SELinuxOptions;
  WindowsOptions : option WindowsSecurityContextOptions;
  RunAsUser : option Z;
}.

Record Toleration := {
  tol_Key : string;
  tol_Operator : string;
  tol_Value : string;
  tol_Effect : string;
}.

Record LabelSelector := { MatchLabels : gmap string string }.

Record TopologySpreadConstraint := {
  MaxSkew : Z;
  TopologyKey : string;
  WhenUnsatisfiable : string;
  tsc_LabelSelector : option LabelSelector;
}.

Record PodOS := { os_Name : string }.

Record Container `{PassThrough} := {
  ct_Name : string;
  ct_Image : string;
  ct_ImagePullPolicy : string;
  ct_Command : list string;
  ct_Args : list string;
  ct_VolumeMounts : list VolumeMount;
  ct_VolumeDevices : list VolumeDevice;
  ct_Env : list EnvVar;
  ct_EnvFrom : list EnvFromSource;
  ct_Resources : ResourceRequirements;
}.

Record PodSpec `{PassThrough} := {
  TopologySpreadConstraints : list TopologySpreadConstraint;
  NodeSelector : gmap string string;
  OS : option PodOS;
  pod_Affinity : option Affinity;
  Containers : list Container;
  ServiceAccountName : string;
  TerminationGracePeriodSeconds : option Z;
  Volumes : list Volume;
  RestartPolicy : string;
  SecurityContext : option PodSecurityContext;
  Tolerations : list Toleration;
  DNSPolicy : string;
  DNSConfig : option PodDNSConfig;
  NodeName : string;
}.

Record Pod `{PassThrough} := {
  pod_Meta : ObjectMeta;
  pod_Spec : PodSpec;
}.

(** ** Types of the exposer package *)

(** [nodeagent.BackupPVC]: one entry of the storage-class remap table. *)
Record BackupPVC := {
  bp_StorageClass : string;
  bp_ReadOnly : bool;
  bp_SPCNoRelabeling : bool;
}.

(** [CSISnapshotExposeParam] *)
Record CSISnapshotExposeParam `{PassThrough} := {
  SnapshotName : string;
  SourceNamespace : string;
  AccessMode : string;
  StorageClass : string;
  HostingPodLabels : gmap string string;
  HostingPodAnnotations : gmap string string;
  OperationTimeout : Duration;
  ExposeTimeout : Duration;
  VolumeSize : Quantity;
  ep_Affinity : option LoadAffinity;
  BackupPVCConfig : gmap string BackupPVC;
  Resources : ResourceRequirements;
  NodeOS : string;
}.

(** [CSISnapshotExposeWaitParam]; the node client itself is the target of
    the [NodeClient_Get] event. *)
Record CSISnapshotExposeWaitParam := { wp_NodeName : string }.

(** [inheritedPodInfo], what [getInheritedPodInfo] copies from the
    node-agent; the fields are those [createBackupPod] reads. *)
Record inheritedPodInfo `{PassThrough} := {
  image : string;
  serviceAccount : string;
  env : list EnvVar;
  envFrom : list EnvFromSource;
  volumeMounts : list VolumeMount;
  volumes : list Volume;
  logLevelArgs : list string;
  logFormatArgs : list string;
  dnsPolicy : string;
  dnsConfig : option PodDNSConfig;
}.

(** [ExposeByPod] and [ExposeResult], as [GetExposed] fills them. *)
Record ExposeByPod `{PassThrough} := {
  HostingPod : Pod;
  HostingContainer : string;
  VolumeName : string;
  er_NodeOS : option string;
}.

Record ExposeResult `{PassThrough} := { ByPod : ExposeByPod }.

(** ** What the exposer imports from the rest of the repository

    Constants and pure helpers of pkg/exposer, pkg/util/kube and
    pkg/util/csi that [csi_snapshot.go] uses and that live in other files.
    They are parameters of the development. *)
Class Imports `{PassThrough} := {
  AccessModeFileSystem : string;
  AccessModeBlock : string;
  podGroupLabel : string;
  podGroupSnapshot : string;
  NodeOSLabel : string;
  NodeOSWindows : string;
  NodeOSLinux : string;
  (* kube.MakePodPVCAttachment(volumeName, volumeMode, readOnly) *)
  MakePodPVCAttachment :
    string -> option PersistentVolumeMode -> bool ->
    list VolumeMount * list VolumeDevice * string;
  (* kube.ToSystemAffinity *)
  ToSystemAffinity : list LoadAffinity -> option Affinity;
  (* kube.IsPodUnrecoverable(pod, log) *)
  IsPodUnrecoverable : Pod -> bool * string;
  DiagnosePod : Pod -> string;
  DiagnosePVC : PersistentVolumeClaim -> string;
  DiagnosePV : PersistentVolume -> string;
  DiagnoseVS : VolumeSnapshot -> string;
  DiagnoseVSC : VolumeSnapshotContent -> string;
  (* time.Duration.String *)
  DurationString : Duration -> string;
}.

(** ** Calls that leave the exposer *)

Inductive Level := Debug | Info | Warn.

Inductive apiE `{PassThrough} : Type -> Type :=
(* pkg/util/csi *)
| WaitVolumeSnapshotReady (volumeSnapshot volumeSnapshotNS : string)
    (timeout : Duration) : apiE (res VolumeSnapshot)
| GetVolumeSnapshotContentForVolumeSnapshot (volSnap : VolumeSnapshot) :
    apiE (res VolumeSnapshotContent)
| RetainVSC (vsc : VolumeSnapshotContent) :
    apiE (option VolumeSnapshotContent * error)
| EnsureDeleteVS (vsName vsNamespace : string) (timeout : Duration) :
    apiE error
| EnsureDeleteVSC (vscName : string) (timeout : Duration) : apiE error
| DeleteVolumeSnapshotIfAny (vsName vsNamespace : string) : apiE unit
(* pkg/util/kube *)
| DeletePVAndPVCIfAny (pvcName pvcNamespace : string)
    (ensureTimeout : Duration) : apiE unit
| DeletePodIfAny (podName podNamespace : string) : apiE unit
| WaitPVCBound (pvc namespace : string) (timeout : Duration) :
    apiE (res PersistentVolume)
(* pkg/exposer and pkg/nodeagent *)
| getInheritedPodInfo (namespace nodeOS : string) : apiE (res inheritedPodInfo)
| KbClientIsRunningInNode (namespace nodeName : string) : apiE error
(* e.csiSnapshotClient *)
| VolumeSnapshots_Create (ns : string) (vs : VolumeSnapshot) :
    apiE (res VolumeSnapshot)
| VolumeSnapshots_Get (ns name : string) : apiE (res VolumeSnapshot)
| VolumeSnapshotContents_Create (vsc : VolumeSnapshotContent) :
    apiE (res VolumeSnapshotContent)
| VolumeSnapshotContents_Get (name : string) :
    apiE (res VolumeSnapshotContent)
(* e.kubeClient.CoreV1() *)
| PersistentVolumeClaims_Create (ns : string) (pvc : PersistentVolumeClaim) :
    apiE (res PersistentVolumeClaim)
| PersistentVolumeClaims_Get (ns name : string) :
    apiE (res PersistentVolumeClaim)
| PersistentVolumes_Get (name : string) : apiE (res PersistentVolume)
| Pods_Create (ns : string) (pod : Pod) : apiE (res Pod)
| Pods_Get (ns name : string) : apiE (res Pod)
(* exposeWaitParam.NodeClient *)
| NodeClient_Get (key : NamespacedName) : apiE (res Pod)
(* e.log; the message is the format string of the call *)
| Log (level : Level) (format : string) : apiE unit.

(** A program: a tree of calls, each continued on its answer. *)
Inductive Prog `{PassThrough} (A : Type) : Type :=
| Ret (a : A)
| Vis {T : Type} (e : apiE T) (k : T -> Prog A).
Arguments Ret {_ A} a.
Arguments Vis {_ A T} e k.

Fixpoint bind `{PassThrough} {A B} (p : Prog A) (f : A -> Prog B) : Prog B :=
  match p with
  | Ret a => f a
  | Vis e k => Vis e (fun r => bind (k r) f)
  end.

Definition call `{PassThrough} {T} (e : apiE T) : Prog T := Vis e Ret.

Declare Scope prog_scope.
Delimit Scope prog_scope with prog.
Notation "x <- c1 ;; c2" := (bind c1 (fun x => c2))
  (at level 100, c1 at next level, right associativity) : prog_scope.
Notation "c1 ;; c2" := (bind c1 (fun _ => c2))
  (at level 100, right associativity) : prog_scope.
Local Open Scope prog_scope.

(** One call with its answer, and the runs of a program: every list of
    answered calls the program can go through, with the value it ends on. *)
Inductive Event `{PassThrough} : Type :=
| Ev {T : Type} (e : apiE T) (r : T).

Fixpoint runs `{PassThrough} {A} (p : Prog A) (tr : list Event) (a : A) : Prop :=
  match p with
  | Ret a' => tr = [] ∧ a = a'
  | Vis e k => ∃ r tr', tr = Ev e r :: tr' ∧ runs (k r) tr' a
  end.

(** A handler answers each call from a world it may change; [exec] runs a
    program against it and records the calls. *)
Definition Handler `{PassThrough} (W : Type) := ∀ T, apiE T → W → T * W.

Fixpoint exec `{PassThrough} {W A} (h : Handler W) (p : Prog A) (w : W)
  : A * W * list Event :=
  match p with
  | Ret a => (a, w, [])
  | Vis e k =>
      let '(r, w1) := h _ e w in
      let '(a, w2, tr) := exec h (k r) w1 in
      (a, w2, Ev e r :: tr)
  end.

(** ** Go control flow: panics and deferred calls *)

(** How a function body is left. *)
Inductive Completion (A : Type) :=
| Returned (a : A)
| Panicked (what : string).
Arguments Returned {A} a.
Arguments Panicked {A} what.

Definition nilDeref : string := "invalid memory address or nil pointer dereference".

(** The state in which the rest of a body, after a [defer] statement, is
    left: the value the local variable [err] holds at that moment (the
    deferred closures of [Expose] read it) and the completion. *)
Record Exit := { errVar : error; completion : Completion error }.

Definition return_ `{PassThrough} (err : error) (result : error) : Prog Exit :=
  Ret {| errVar := err; completion := Returned result |}.

Definition panic_ `{PassThrough} (err : error) (what : string) : Prog Exit :=
  Ret {| errVar := err; completion := Panicked what |}.

(** [defer func() { deferred }()] followed by [rest]: the closure runs when
    [rest] is left, by return or by panic, and sees [err] as it is then. *)
Definition with_defer `{PassThrough}
  (deferred : error → Prog unit) (rest : Prog Exit) : Prog Exit :=
  x <- rest ;; deferred (errVar x) ;; Ret x.

Definition WrapErr (e : Err) (message : string) : Err :=
  mkErr (errReason e) (message +:+ ": " +:+ Error e).

Definition err_of {T} (r : res T) : error :=
  match r with Ok _ => None | Fail e => Some e end.

Definition nl : string := String "010"%char "".

(** ** pkg/exposer/csi_snapshot.go *)
Section CSISnapshotExposer.
Context `{Imports}.

Definition cleanUpTimeout : Duration := Minute.

Definition getVolumeModeByAccessMode (accessMode : string)
  : PersistentVolumeMode * error :=
  if decide (accessMode = AccessModeFileSystem) then
    (PersistentVolumeFilesystem, None)
  else if decide (accessMode = AccessModeBlock) then
    (PersistentVolumeBlock, None)
  else
    ("", Errorf ("unsupported access mode " +:+ accessMode)).

Definition createBackupVS (ownerObject : ObjectReference)
  (snapshotVS : VolumeSnapshot) : Prog (res VolumeSnapshot) :=
  let backupVSName := or_Name ownerObject in
  let backupVSCName := or_Name ownerObject in
  let vs :=
    {| vs_Meta :=
         {| Name := backupVSName;
            Namespace := or_Namespace ownerObject;
            Annotations := Annotations (vs_Meta snapshotVS);
            (* Don't add ownerReference to SnapshotBackup. *)
            OwnerReferences := [];
            UID := ""; ResourceVersion := ""; Labels := ∅ |};
       vs_Spec :=
         {| vs_Source :=
              {| vss_VolumeSnapshotContentName := Some backupVSCName;
                 vss_PersistentVolumeClaimName := None |};
            vs_VolumeSnapshotClassName :=
              vs_VolumeSnapshotClassName (vs_Spec snapshotVS) |};
       vs_Status := None |} in
  call (VolumeSnapshots_Create (Namespace (vs_Meta vs)) vs).

(** [snapshotVSC.Status] is a pointer that the body dereferences while it
    builds the object, before the Create call. *)
Definition createBackupVSC (ownerObject : ObjectReference)
  (snapshotVSC : VolumeSnapshotContent) (vs : VolumeSnapshot)
  : Prog (Completion (res VolumeSnapshotContent)) :=
  let backupVSCName := or_Name ownerObject in
  match vsc_Status snapshotVSC with
  | None => Ret (Panicked nilDeref)
  | Some snapshotVSC_Status =>
      let vsc :=
        {| vsc_Meta :=
             {| Name := backupVSCName;
                Annotations := Annotations (vsc_Meta snapshotVSC);
                Namespace := ""; UID := ""; ResourceVersion := "";
                Labels := ∅; OwnerReferences := [] |};
           vsc_Spec :=
             {| vsc_VolumeSnapshotRef :=
                  {| or_Name := Name (vs_Meta vs);
                     or_Namespace := Namespace (vs_Meta vs);
                     or_UID := UID (vs_Meta vs);
                     or_ResourceVersion := ResourceVersion (vs_Meta vs);
                     or_Kind := ""; or_APIVersion := "" |};
                vsc_Source :=
                  {| vscs_SnapshotHandle := vsc_SnapshotHandle snapshotVSC_Status;
                     vscs_VolumeHandle := None |};
                vsc_DeletionPolicy := VolumeSnapshotContentDelete;
                vsc_Driver := vsc_Driver (vsc_Spec snapshotVSC);
                vsc_VolumeSnapshotClassName :=
                  vsc_VolumeSnapshotClassName (vsc_Spec snapshotVSC) |};
           vsc_Status := None |} in
      r <- call (VolumeSnapshotContents_Create vsc) ;;
      Ret (Returned r)
  end.

(** The controller owner reference the claim and the pod carry. *)
Definition ownerReferenceOf (ownerObject : ObjectReference) : OwnerReference :=
  {| ow_APIVersion := or_APIVersion ownerObject;
     ow_Kind := or_Kind ownerObject;
     ow_Name := or_Name ownerObject;
     ow_UID := or_UID ownerObject;
     ow_Controller := Some true |}.

Definition createBackupPVC (ownerObject : ObjectReference)
  (backupVS storageClass accessMode : string) (resource : Quantity)
  (readOnly : bool) : Prog (res PersistentVolumeClaim) :=
  let backupPVCName := or_Name ownerObject in
  let '(volumeMode, err) := getVolumeModeByAccessMode accessMode in
  match err with
  | Some err => Ret (Fail err)
  | None =>
      let pvcAccessMode := if readOnly then ReadOnlyMany else ReadWriteOnce in
      let dataSource :=
        {| tl_APIGroup := Some SchemeGroupVersion_Group;
           tl_Kind := "VolumeSnapshot";
           tl_Name := backupVS |} in
      let pvc :=
        {| pvc_Meta :=
             {| Namespace := or_Namespace ownerObject;
                Name := backupPVCName;
                OwnerReferences := [ownerReferenceOf ownerObject];
                UID := ""; ResourceVersion := ""; Labels := ∅;
                Annotations := ∅ |};
           pvc_Spec :=
             {| pvc_AccessModes := [pvcAccessMode];
                pvc_StorageClassName := Some storageClass;
                pvc_VolumeMode := Some volumeMode;
                pvc_DataSource := Some dataSource;
                pvc_DataSourceRef := None;
                pvc_Requests := {[ ResourceStorage := resource ]};
                pvc_VolumeName := "" |} |} in
      r <- call (PersistentVolumeClaims_Create (Namespace (pvc_Meta pvc)) pvc) ;;
      match r with
      | Fail err => Ret (Fail (WrapErr err "error to create pvc"))
      | Ok created => Ret (Ok created)
      end
  end.

Definition createBackupPod (ownerObject : ObjectReference)
  (backupPVC : PersistentVolumeClaim) (operationTimeout : Duration)
  (label annotation : gmap string string) (affinity : option LoadAffinity)
  (resources : ResourceRequirements) (backupPVCReadOnly spcNoRelabeling : bool)
  (nodeOS : string) : Prog (res Pod) :=
  let podName := or_Name ownerObject in
  let containerName := or_UID ownerObject in
  let volumeName := or_UID ownerObject in
  r <- call (getInheritedPodInfo (or_Namespace ownerObject) nodeOS) ;;
  match r with
  | Fail err =>
      Ret (Fail (WrapErr err "error to get inherited pod info from node-agent"))
  | Ok podInfo =>
      let gracePeriod := 0 in
      let attachment :=
        MakePodPVCAttachment volumeName (pvc_VolumeMode (pvc_Spec backupPVC))
          backupPVCReadOnly in
      let volumeDevices := attachment.1.2 in
      let volumePath := attachment.2 in
      let volumeMounts := attachment.1.1 ++ volumeMounts podInfo in
      let volumes :=
        [ {| vol_Name := volumeName;
             vol_VolumeSource :=
               {| vsrc_PersistentVolumeClaim :=
                    Some {| ClaimName := Name (pvc_Meta backupPVC);
                            cv_ReadOnly :=
                              if backupPVCReadOnly then true else false |};
                  vsrc_Other := None |} |} ]
        ++ volumes podInfo in
      (* In Go this insertion also changes the caller's map when it is not
         nil; nothing here reads that map again. *)
      let label := <[ podGroupLabel := podGroupSnapshot ]> label in
      let volumeMode :=
        match pvc_VolumeMode (pvc_Spec backupPVC) with
        | Some m => m
        | None => PersistentVolumeFilesystem
        end in
      let args :=
        [ "--volume-path=" +:+ volumePath;
          "--volume-mode=" +:+ volumeMode;
          "--data-upload=" +:+ or_Name ownerObject;
          "--resource-timeout=" +:+ DurationString operationTimeout ]
        ++ logFormatArgs podInfo ++ logLevelArgs podInfo in
      let byOS :=
        if decide (nodeOS = NodeOSWindows) then
          let userID := "ContainerAdministrator" in
          ( {| WindowsOptions := Some {| RunAsUserName := Some userID |};
               SELinuxOptions_ := None; RunAsUser := None |},
            <[ NodeOSLabel := NodeOSWindows ]> (∅ : gmap string string),
            {| os_Name := NodeOSWindows |},
            [ {| tol_Key := "os"; tol_Operator := "Equal";
                 tol_Effect := "NoSchedule"; tol_Value := "windows" |} ] )
        else
          let userID := 0 in
          ( {| RunAsUser := Some userID;
               SELinuxOptions_ :=
                 if spcNoRelabeling then Some {| se_Type := "spc_t" |}
                 else None;
               WindowsOptions := None |},
            <[ NodeOSLabel := NodeOSLinux ]> (∅ : gmap string string),
            {| os_Name := NodeOSLinux |},
            [] ) in
      let securityCtx := byOS.1.1.1 in
      let nodeSelector := byOS.1.1.2 in
      let podOS := byOS.1.2 in
      let toleration := byOS.2 in
      let podAffinity :=
        match affinity with
        | Some affinity => ToSystemAffinity [affinity]
        | None => None
        end in
      let pod :=
        {| pod_Meta :=
             {| Name := podName;
                Namespace := or_Namespace ownerObject;
                OwnerReferences := [ownerReferenceOf ownerObject];
                Labels := label;
                Annotations := annotation;
                UID := ""; ResourceVersion := "" |};
           pod_Spec :=
             {| TopologySpreadConstraints :=
                  [ {| MaxSkew := 1;
                       TopologyKey := "kubernetes.io/hostname";
                       WhenUnsatisfiable := "ScheduleAnyway";
                       tsc_LabelSelector :=
                         Some {| MatchLabels :=
                                   {[ podGroupLabel := podGroupSnapshot ]} |} |} ];
                NodeSelector := nodeSelector;
                OS := Some podOS;
                pod_Affinity := podAffinity;
                Containers :=
                  [ {| ct_Name := containerName;
                       ct_Image := image podInfo;
                       ct_ImagePullPolicy := "Never";
                       ct_Command := ["/velero"; "data-mover"; "backup"];
                       ct_Args := args;
                       ct_VolumeMounts := volumeMounts;
                       ct_VolumeDevices := volumeDevices;
                       ct_Env := env podInfo;
                       ct_EnvFrom := envFrom podInfo;
                       ct_Resources := resources |} ];
                ServiceAccountName := serviceAccount podInfo;
                TerminationGracePeriodSeconds := Some gracePeriod;
                Volumes := volumes;
                RestartPolicy := "Never";
                SecurityContext := Some securityCtx;
                Tolerations := toleration;
                DNSPolicy := dnsPolicy podInfo;
                DNSConfig := dnsConfig podInfo;
                NodeName := "" |} |} in
      call (Pods_Create (or_Namespace ownerObject) pod)
  end.

Definition Expose (ownerObject : ObjectReference)
  (csiExposeParam : CSISnapshotExposeParam) : Prog (Completion error) :=
  call (Log Info "Exposing CSI snapshot") ;;
  r <- call (WaitVolumeSnapshotReady (SnapshotName csiExposeParam)
               (SourceNamespace csiExposeParam) (ExposeTimeout csiExposeParam)) ;;
  match r with
  | Fail err =>
      Ret (Returned (Wrapf (Some err) "error wait volume snapshot ready"))
  | Ok volumeSnapshot =>
  call (Log Info "Volumesnapshot is ready") ;;
  r <- call (GetVolumeSnapshotContentForVolumeSnapshot volumeSnapshot) ;;
  match r with
  | Fail err =>
      Ret (Returned (Wrap (Some err) "error to get volume snapshot content"))
  | Ok vsc =>
  call (Log Info "Got VSC from VS in namespace %s") ;;
  r <- createBackupVS ownerObject volumeSnapshot ;;
  match r with
  | Fail err =>
      Ret (Returned (Wrap (Some err) "error to create backup volume snapshot"))
  | Ok backupVS =>
  call (Log Info "Backup VS is created from %s/%s") ;;
  x <- with_defer
    (fun err =>
       match err with
       | Some _ =>
           call (DeleteVolumeSnapshotIfAny (Name (vs_Meta backupVS))
                   (Namespace (vs_Meta backupVS)))
       | None => Ret tt
       end)
    (c <- createBackupVSC ownerObject vsc backupVS ;;
     match c with
     | Panicked what => panic_ None what
     | Returned (Fail err) =>
         return_ (Some err)
           (Wrap (Some err) "error to create backup volume snapshot content")
     | Returned (Ok backupVSC) =>
     call (Log Info "Backup VSC is created from %s") ;;
     p <- call (RetainVSC vsc) ;;
     let '(retained, err) := p in
     match err with
     | Some _ =>
         return_ err (Wrap err "error to retain volume snapshot content")
     | None =>
     call (Log Info "Finished to retain VSC") ;;
     err <- call (EnsureDeleteVS (Name (vs_Meta volumeSnapshot))
                    (Namespace (vs_Meta volumeSnapshot))
                    (OperationTimeout csiExposeParam)) ;;
     match err with
     | Some _ => return_ err (Wrap err "error to delete volume snapshot")
     | None =>
     call (Log Info "VS is deleted in namespace %s") ;;
     err <- call (EnsureDeleteVSC (Name (vsc_Meta vsc))
                    (OperationTimeout csiExposeParam)) ;;
     match err with
     | Some _ =>
         return_ err (Wrap err "error to delete volume snapshot content")
     | None =>
     call (Log Info "VSC is deleted") ;;
     match vs_Status volumeSnapshot with
     | None => panic_ None nilDeref
     | Some volumeSnapshot_Status =>
     let useVolumeSize :=
       (call (Log Warn
          "The snapshot doesn't contain a valid restore size, use source volume's size %v") ;;
        Ret (VolumeSize csiExposeParam)) in
     volumeSize <-
       match vs_RestoreSize volumeSnapshot_Status with
       | Some restoreSize =>
           if negb (IsZero restoreSize) then Ret restoreSize else useVolumeSize
       | None => useVolumeSize
       end ;;
     (* check if there is a mapping for source pvc storage class in
        backupPVC config *)
     cfg <-
       match BackupPVCConfig csiExposeParam !! StorageClass csiExposeParam with
       | Some value =>
           let backupPVCStorageClass :=
             if decide (bp_StorageClass value ≠ "") then bp_StorageClass value
             else StorageClass csiExposeParam in
           let backupPVCReadOnly := bp_ReadOnly value in
           if bp_SPCNoRelabeling value then
             if backupPVCReadOnly then
               Ret (backupPVCStorageClass, backupPVCReadOnly, true)
             else
               (call (Log Warn "Ignoring spcNoRelabling for read-write volume") ;;
                Ret (backupPVCStorageClass, backupPVCReadOnly, false))
           else Ret (backupPVCStorageClass, backupPVCReadOnly, false)
       | None => Ret (StorageClass csiExposeParam, false, false)
       end ;;
     let '(backupPVCStorageClass, backupPVCReadOnly, spcNoRelabeling) := cfg in
     r <- createBackupPVC ownerObject (Name (vs_Meta backupVS))
            backupPVCStorageClass (AccessMode csiExposeParam) volumeSize
            backupPVCReadOnly ;;
     match r with
     | Fail err => return_ (Some err) (Wrap (Some err) "error to create backup pvc")
     | Ok backupPVC =>
     call (Log Info "Backup PVC is created") ;;
     with_defer
       (fun err =>
          match err with
          | Some _ =>
              call (DeletePVAndPVCIfAny (Name (pvc_Meta backupPVC))
                      (Namespace (pvc_Meta backupPVC)) 0)
          | None => Ret tt
          end)
       (r <- createBackupPod ownerObject backupPVC
               (OperationTimeout csiExposeParam)
               (HostingPodLabels csiExposeParam)
               (HostingPodAnnotations csiExposeParam)
               (ep_Affinity csiExposeParam)
               (Resources csiExposeParam)
               backupPVCReadOnly spcNoRelabeling
               (NodeOS csiExposeParam) ;;
        match r with
        | Fail err =>
            return_ (Some err) (Wrap (Some err) "error to create backup pod")
        | Ok backupPod =>
        call (Log Info "Backup pod is created") ;;
        with_defer
          (fun err =>
             match err with
             | Some _ =>
                 call (DeletePodIfAny (Name (pod_Meta backupPod))
                         (Namespace (pod_Meta backupPod)))
             | None => Ret tt
             end)
          (return_ None None)
        end)
     end end end end end
     end) ;;
  Ret (completion x)
  end end end.

(** The index at which the loop of [GetExposed] stops: the first volume of
    that name, or the length of the list. *)
Fixpoint volumeIndex (volumes : list Volume) (volumeName : string) : nat :=
  match volumes with
  | [] => 0%nat
  | v :: rest =>
      if decide (vol_Name v = volumeName) then 0%nat
      else S (volumeIndex rest volumeName)
  end.

Definition GetExposed (ownerObject : ObjectReference) (timeout : Duration)
  (exposeWaitParam : CSISnapshotExposeWaitParam)
  : Prog (option ExposeResult * error) :=
  let backupPodName := or_Name ownerObject in
  let backupPVCName := or_Name ownerObject in
  let containerName := or_UID ownerObject in
  let volumeName := or_UID ownerObject in
  r <- call (NodeClient_Get {| nn_Namespace := or_Namespace ownerObject;
                               nn_Name := backupPodName |}) ;;
  match r with
  | Fail err =>
      if IsNotFound (Some err) then
        call (Log Debug "Backup pod is not running in the current node %s") ;;
        Ret (None, None)
      else
        Ret (None, Wrapf (Some err) ("error to get backup pod " +:+ backupPodName))
  | Ok pod =>
  call (Log Info "Backup pod is in running state in node %s") ;;
  r <- call (WaitPVCBound backupPVCName (or_Namespace ownerObject) timeout) ;;
  match r with
  | Fail err =>
      Ret (None, Wrapf (Some err)
                   ("error to wait backup PVC bound, " +:+ backupPVCName))
  | Ok _ =>
  call (Log Info "Backup PVC is bound") ;;
  let i := volumeIndex (Volumes (pod_Spec pod)) volumeName in
  if decide (i = length (Volumes (pod_Spec pod))) then
    Ret (None, Errorf ("backup pod " +:+ Name (pod_Meta pod)
                       +:+ " doesn't have the expected backup volume"))
  else
  call (Log Info "Backup volume is found in pod at index %v") ;;
  let nodeOS := NodeSelector (pod_Spec pod) !! NodeOSLabel in
  Ret (Some {| ByPod := {| HostingPod := pod;
                           HostingContainer := containerName;
                           VolumeName := volumeName;
                           er_NodeOS := nodeOS |} |}, None)
  end end.

Definition PeekExposed (ownerObject : ObjectReference) : Prog error :=
  let backupPodName := or_Name ownerObject in
  r <- call (Pods_Get (or_Namespace ownerObject) backupPodName) ;;
  if IsNotFound (err_of r) then Ret None
  else
    match r with
    | Fail err =>
        call (Log Warn "error to peek backup pod %s") ;;
        Ret None
    | Ok pod =>
        let '(podFailed, message) := IsPodUnrecoverable pod in
        if podFailed then Ret (Some (New message)) else Ret None
    end.

Definition CleanUp (ownerObject : ObjectReference)
  (vsName sourceNamespace : string) : Prog unit :=
  let backupPodName := or_Name ownerObject in
  let backupPVCName := or_Name ownerObject in
  let backupVSName := or_Name ownerObject in
  call (DeletePodIfAny backupPodName (or_Namespace ownerObject)) ;;
  call (DeletePVAndPVCIfAny backupPVCName (or_Namespace ownerObject)
          cleanUpTimeout) ;;
  call (DeleteVolumeSnapshotIfAny backupVSName (or_Namespace ownerObject)) ;;
  call (DeleteVolumeSnapshotIfAny vsName sourceNamespace).

Definition DiagnoseExpose (ownerObject : ObjectReference) : Prog string :=
  let backupPodName := or_Name ownerObject in
  let backupPVCName := or_Name ownerObject in
  let backupVSName := or_Name ownerObject in
  let diag := "begin diagnose CSI exposer" +:+ nl in
  r <- call (Pods_Get (or_Namespace ownerObject) backupPodName) ;;
  let '(pod, diag) :=
    match r with
    | Fail err =>
        (None, diag +:+ "error getting backup pod " +:+ backupPodName
                 +:+ ", err: " +:+ Error err +:+ nl)
    | Ok pod => (Some pod, diag)
    end in
  r <- call (PersistentVolumeClaims_Get (or_Namespace ownerObject) backupPVCName) ;;
  let '(pvc, diag) :=
    match r with
    | Fail err =>
        (None, diag +:+ "error getting backup pvc " +:+ backupPVCName
                 +:+ ", err: " +:+ Error err +:+ nl)
    | Ok pvc => (Some pvc, diag)
    end in
  r <- call (VolumeSnapshots_Get (or_Namespace ownerObject) backupVSName) ;;
  let '(vs, diag) :=
    match r with
    | Fail err =>
        (None, diag +:+ "error getting backup vs " +:+ backupVSName
                 +:+ ", err: " +:+ Error err +:+ nl)
    | Ok vs => (Some vs, diag)
    end in
  diag <-
    match pod with
    | Some pod =>
        let diag := diag +:+ DiagnosePod pod in
        if decide (NodeName (pod_Spec pod) ≠ "") then
          err <- call (KbClientIsRunningInNode (or_Namespace ownerObject)
                         (NodeName (pod_Spec pod))) ;;
          match err with
          | Some err =>
              Ret (diag +:+ "node-agent is not running in node "
                     +:+ NodeName (pod_Spec pod) +:+ ", err: " +:+ Error err +:+ nl)
          | None => Ret diag
          end
        else Ret diag
    | None => Ret diag
    end ;;
  diag <-
    match pvc with
    | Some pvc =>
        let diag := diag +:+ DiagnosePVC pvc in
        if decide (pvc_VolumeName (pvc_Spec pvc) ≠ "") then
          r <- call (PersistentVolumes_Get (pvc_VolumeName (pvc_Spec pvc))) ;;
          match r with
          | Fail err =>
              Ret (diag +:+ "error getting backup pv "
                     +:+ pvc_VolumeName (pvc_Spec pvc) +:+ ", err: "
                     +:+ Error err +:+ nl)
          | Ok pv => Ret (diag +:+ DiagnosePV pv)
          end
        else Ret diag
    | None => Ret diag
    end ;;
  diag <-
    match vs with
    | Some vs =>
        let diag := diag +:+ DiagnoseVS vs in
        match vs_Status vs with
        | Some {| vs_BoundVolumeSnapshotContentName := Some bound |} =>
            if decide (bound ≠ "") then
              r <- call (VolumeSnapshotContents_Get bound) ;;
              match r with
              | Fail err =>
                  Ret (diag +:+ "error getting backup vsc " +:+ bound
                         +:+ ", err: " +:+ Error err +:+ nl)
              | Ok vsc => Ret (diag +:+ DiagnoseVSC vsc)
              end
            else Ret diag
        | _ => Ret diag
        end
    | None => Ret diag
    end ;;
  Ret (diag +:+ "end diagnose CSI exposer").

End CSISnapshotExposer.

(** ** An in-memory object store with injected faults *)
Section FakeStore.
Context `{PassThrough}.

(** Modelled from the spec: the object store and the helpers of
    pkg/util/csi, pkg/util/kube and pkg/nodeagent are not in the source
    files at hand.  The store is the in-memory fake of the design notes,
    with the not-found and conflict semantics of the real one; snapshots,
    claims and pods are keyed by namespace and name, contents and volumes by
    name; [agent] is what the node-agent hands out as pod template. *)
Record World := {
  vss : gmap (string * string) VolumeSnapshot;
  vscs : gmap string VolumeSnapshotContent;
  pvcs : gmap (string * string) PersistentVolumeClaim;
  pvs : gmap string PersistentVolume;
  pods : gmap (string * string) Pod;
  agent : inheritedPodInfo;
}.

Definition set_vss (f : gmap (string * string) VolumeSnapshot →
                        gmap (string * string) VolumeSnapshot) (w : World) :=
  {| vss := f (vss w); vscs := vscs w; pvcs := pvcs w; pvs := pvs w;
     pods := pods w; agent := agent w |}.

Definition set_vscs (f : gmap string VolumeSnapshotContent →
                         gmap string VolumeSnapshotContent) (w : World) :=
  {| vss := vss w; vscs := f (vscs w); pvcs := pvcs w; pvs := pvs w;
     pods := pods w; agent := agent w |}.

Definition set_pvcs (f : gmap (string * string) PersistentVolumeClaim →
                         gmap (string * string) PersistentVolumeClaim)
  (w : World) :=
  {| vss := vss w; vscs := vscs w; pvcs := f (pvcs w); pvs := pvs w;
     pods := pods w; agent := agent w |}.

Definition set_pvs (f : gmap string PersistentVolume →
                        gmap string PersistentVolume) (w : World) :=
  {| vss := vss w; vscs := vscs w; pvcs := pvcs w; pvs := f (pvs w);
     pods := pods w; agent := agent w |}.

Definition set_pods (f : gmap (string * string) Pod →
                         gmap (string * string) Pod) (w : World) :=
  {| vss := vss w; vscs := vscs w; pvcs := pvcs w; pvs := pvs w;
     pods := f (pods w); agent := agent w |}.

(** Every object is stored under its own name. *)
Definition wf (w : World) : Prop :=
  (∀ ns n vs, vss w !! (ns, n) = Some vs →
     Namespace (vs_Meta vs) = ns ∧ Name (vs_Meta vs) = n) ∧
  (∀ n vsc, vscs w !! n = Some vsc → Name (vsc_Meta vsc) = n).

(** The faults to inject: an error for the calls that are to fail. *)
Definition Reactor := ∀ T, apiE T → option Err.

Definition noFaults : Reactor := λ _ _, None.

Definition errNotFound (what : string) : Err :=
  mkErr StatusReasonNotFound (what +:+ " not found").
Definition errAlreadyExists (what : string) : Err :=
  mkErr StatusReasonAlreadyExists (what +:+ " already exists").
Definition errTimeout : Err :=
  mkErr StatusReasonTimeout "timed out waiting for the condition".

Definition isReady (vs : VolumeSnapshot) : bool :=
  match vs_Status vs with
  | Some {| vs_ReadyToUse := Some true |} => true
  | _ => false
  end.

Definition retain (vsc : VolumeSnapshotContent) : VolumeSnapshotContent :=
  {| vsc_Meta := vsc_Meta vsc;
     vsc_Spec :=
       {| vsc_VolumeSnapshotRef := vsc_VolumeSnapshotRef (vsc_Spec vsc);
          vsc_Source := vsc_Source (vsc_Spec vsc);
          vsc_DeletionPolicy := VolumeSnapshotContentRetain;
          vsc_Driver := vsc_Driver (vsc_Spec vsc);
          vsc_VolumeSnapshotClassName :=
            vsc_VolumeSnapshotClassName (vsc_Spec vsc) |};
     vsc_Status := vsc_Status vsc |}.

(** Modelled from the spec: what each call does on the fake store.  A
    Get answers not-found for a missing object and a Create answers a
    conflict for a name that is taken; the wait helpers answer at once, a
    timeout when the condition does not hold; RetainVSC patches the
    deletion policy; the Ensure deletes delete an object that is there;
    the IfAny deletes delete if present and report nothing, a claim going
    with the volume it is bound to. *)
Definition fake (f : Reactor) : Handler World :=
  λ T e,
    match e in apiE T return World → T * World with
    | WaitVolumeSnapshotReady name ns t => λ w,
        match f _ (WaitVolumeSnapshotReady name ns t) with
        | Some err => (Fail err, w)
        | None =>
            match vss w !! (ns, name) with
            | Some vs => if isReady vs then (Ok vs, w) else (Fail errTimeout, w)
            | None => (Fail (errNotFound name), w)
            end
        end
    | GetVolumeSnapshotContentForVolumeSnapshot vs => λ w,
        match f _ (GetVolumeSnapshotContentForVolumeSnapshot vs) with
        | Some err => (Fail err, w)
        | None =>
            match vs_Status vs ≫= vs_BoundVolumeSnapshotContentName with
            | Some n =>
                match vscs w !! n with
                | Some vsc => (Ok vsc, w)
                | None => (Fail (errNotFound n), w)
                end
            | None => (Fail (New "invalid snapshot info in volume snapshot"), w)
            end
        end
    | RetainVSC vsc => λ w,
        match f _ (RetainVSC vsc) with
        | Some err => ((None, Some err), w)
        | None =>
            match vscs w !! Name (vsc_Meta vsc) with
            | Some c =>
                ((Some (retain c), None),
                 set_vscs <[ Name (vsc_Meta vsc) := retain c ]> w)
            | None => ((None, Some (errNotFound (Name (vsc_Meta vsc)))), w)
            end
        end
    | EnsureDeleteVS name ns t => λ w,
        match f _ (EnsureDeleteVS name ns t) with
        | Some err => (Some err, w)
        | None =>
            match vss w !! (ns, name) with
            | Some _ => (None, set_vss (delete (ns, name)) w)
            | None => (Some (errNotFound name), w)
            end
        end
    | EnsureDeleteVSC name t => λ w,
        match f _ (EnsureDeleteVSC name t) with
        | Some err => (Some err, w)
        | None =>
            match vscs w !! name with
            | Some _ => (None, set_vscs (delete name) w)
            | None => (Some (errNotFound name), w)
            end
        end
    | DeleteVolumeSnapshotIfAny name ns => λ w,
        (tt, set_vss (delete (ns, name)) w)
    | DeletePVAndPVCIfAny name ns t => λ w,
        match pvcs w !! (ns, name) with
        | Some pvc =>
            (tt, set_pvs (delete (pvc_VolumeName (pvc_Spec pvc)))
                   (set_pvcs (delete (ns, name)) w))
        | None => (tt, w)
        end
    | DeletePodIfAny name ns => λ w,
        (tt, set_pods (delete (ns, name)) w)
    | WaitPVCBound name ns t => λ w,
        match f _ (WaitPVCBound name ns t) with
        | Some err => (Fail err, w)
        | None =>
            match pvcs w !! (ns, name) with
            | Some pvc =>
                match pvs w !! pvc_VolumeName (pvc_Spec pvc) with
                | Some pv => (Ok pv, w)
                | None => (Fail errTimeout, w)
                end
            | None => (Fail (errNotFound name), w)
            end
        end
    | getInheritedPodInfo ns nodeOS => λ w,
        match f _ (getInheritedPodInfo ns nodeOS) with
        | Some err => (Fail err, w)
        | None => (Ok (agent w), w)
        end
    | KbClientIsRunningInNode ns node => λ w,
        (f _ (KbClientIsRunningInNode ns node), w)
    | VolumeSnapshots_Create ns vs => λ w,
        match f _ (VolumeSnapshots_Create ns vs) with
        | Some err => (Fail err, w)
        | None =>
            match vss w !! (ns, Name (vs_Meta vs)) with
            | Some _ => (Fail (errAlreadyExists (Name (vs_Meta vs))), w)
            | None => (Ok vs, set_vss <[ (ns, Name (vs_Meta vs)) := vs ]> w)
            end
        end
    | VolumeSnapshots_Get ns name => λ w,
        match f _ (VolumeSnapshots_Get ns name) with
        | Some err => (Fail err, w)
        | None =>
            match vss w !! (ns, name) with
            | Some vs => (Ok vs, w)
            | None => (Fail (errNotFound name), w)
            end
        end
    | VolumeSnapshotContents_Create vsc => λ w,
        match f _ (VolumeSnapshotContents_Create vsc) with
        | Some err => (Fail err, w)
        | None =>
            match vscs w !! Name (vsc_Meta vsc) with
            | Some _ => (Fail (errAlreadyExists (Name (vsc_Meta vsc))), w)
            | None => (Ok vsc, set_vscs <[ Name (vsc_Meta vsc) := vsc ]> w)
            end
        end
    | VolumeSnapshotContents_Get name => λ w,
        match f _ (VolumeSnapshotContents_Get name) with
        | Some err => (Fail err, w)
        | None =>
            match vscs w !! name with
            | Some vsc => (Ok vsc, w)
            | None => (Fail (errNotFound name), w)
            end
        end
    | PersistentVolumeClaims_Create ns pvc => λ w,
        match f _ (PersistentVolumeClaims_Create ns pvc) with
        | Some err => (Fail err, w)
        | None =>
            match pvcs w !! (ns, Name (pvc_Meta pvc)) with
            | Some _ => (Fail (errAlreadyExists (Name (pvc_Meta pvc))), w)
            | None => (Ok pvc, set_pvcs <[ (ns, Name (pvc_Meta pvc)) := pvc ]> w)
            end
        end
    | PersistentVolumeClaims_Get ns name => λ w,
        match f _ (PersistentVolumeClaims_Get ns name) with
        | Some err => (Fail err, w)
        | None =>
            match pvcs w !! (ns, name) with
            | Some pvc => (Ok pvc, w)
            | None => (Fail (errNotFound name), w)
            end
        end
    | PersistentVolumes_Get name => λ w,
        match f _ (PersistentVolumes_Get name) with
        | Some err => (Fail err, w)
        | None =>
            match pvs w !! name with
            | Some pv => (Ok pv, w)
            | None => (Fail (errNotFound name), w)
            end
        end
    | Pods_Create ns pod => λ w,
        match f _ (Pods_Create ns pod) with
        | Some err => (Fail err, w)
        | None =>
            match pods w !! (ns, Name (pod_Meta pod)) with
            | Some _ => (Fail (errAlreadyExists (Name (pod_Meta pod))), w)
            | None => (Ok pod, set_pods <[ (ns, Name (pod_Meta pod)) := pod ]> w)
            end
        end
    | Pods_Get ns name => λ w,
        match f _ (Pods_Get ns name) with
        | Some err => (Fail err, w)
        | None =>
            match pods w !! (ns, name) with
            | Some pod => (Ok pod, w)
            | None => (Fail (errNotFound name), w)
            end
        end
    | NodeClient_Get key => λ w,
        match f _ (NodeClient_Get key) with
        | Some err => (Fail err, w)
        | None =>
            match pods w !! (nn_Namespace key, nn_Name key) with
            | Some pod => (Ok pod, w)
            | None => (Fail (errNotFound (nn_Name key)), w)
            end
        end
    | Log _ _ => λ w, (tt, w)
    end.

(** A run against a handler, as a relation that unfolds call by call. *)
Fixpoint runs_on {W A} (h : Handler W) (p : Prog A) (w : W)
  (tr : list Event) (a : A) (w' : W) : Prop :=
  match p with
  | Ret a' => tr = [] ∧ a = a' ∧ w' = w
  | Vis e k =>
      ∃ r w1 tr', h _ e w = (r, w1) ∧ tr = Ev e r :: tr' ∧
                  runs_on h (k r) w1 tr' a w'
  end.

End FakeStore.

(** ** Properties of runs, event by event *)

(** [splits_ok R pre tr]: [R] holds of every event of [tr], given the
    events before it (after [pre]) and those after it. *)
Fixpoint splits_ok `{PassThrough}
  (R : list Event → Event → list Event → Prop)
  (pre tr : list Event) : Prop :=
  match tr with
  | [] => True
  | ev :: post => R pre ev post ∧ splits_ok R (pre ++ [ev]) post
  end.

Section EventProperties.
Context `{Imports}.

(** The reference by which the backup content points at a snapshot. *)
Definition referenceTo (vs : VolumeSnapshot) : ObjectReference :=
  {| or_Name := Name (vs_Meta vs);
     or_Namespace := Namespace (vs_Meta vs);
     or_UID := UID (vs_Meta vs);
     or_ResourceVersion := ResourceVersion (vs_Meta vs);
     or_Kind := ""; or_APIVersion := "" |}.

(** The backup content as [createBackupVSC] fills it from the source
    content and the backup snapshot, whatever its deletion policy. *)
Definition copiedFrom (sourceVSC : VolumeSnapshotContent)
  (backupVS : VolumeSnapshot) (vsc : VolumeSnapshotContent) : Prop :=
  ∃ sourceStatus,
    vsc_Status sourceVSC = Some sourceStatus ∧
    vsc_Driver (vsc_Spec vsc) = vsc_Driver (vsc_Spec sourceVSC) ∧
    vscs_SnapshotHandle (vsc_Source (vsc_Spec vsc))
      = vsc_SnapshotHandle sourceStatus ∧
    vsc_VolumeSnapshotRef (vsc_Spec vsc) = referenceTo backupVS.

(** Where the backup content is created, it is a copy of the source
    content that was resolved before, bound to the backup snapshot that
    was created before, with deletion policy [policy]. *)
Definition backup_content_is (policy : DeletionPolicy) (o : ObjectReference)
  : list Event → Event → list Event → Prop :=
  λ pre ev _,
    match ev with
    | Ev e _ =>
        match e with
        | VolumeSnapshotContents_Create vsc =>
            ∃ volumeSnapshot sourceVSC vs backupVS,
              Ev (GetVolumeSnapshotContentForVolumeSnapshot volumeSnapshot)
                 (Ok sourceVSC) ∈ pre ∧
              Ev (VolumeSnapshots_Create (or_Namespace o) vs) (Ok backupVS) ∈ pre ∧
              copiedFrom sourceVSC backupVS vsc ∧
              vsc_DeletionPolicy (vsc_Spec vsc) = policy
        | _ => True
        end
    end.

(** The delete of a content comes after a successful retain of it. *)
Definition retain_first : list Event → Event → list Event → Prop :=
  λ pre ev _,
    match ev with
    | Ev e _ =>
        match e with
        | EnsureDeleteVSC n _ =>
            ∃ vsc retained,
              Ev (RetainVSC vsc) (retained, None) ∈ pre ∧
              Name (vsc_Meta vsc) = n
        | _ => True
        end
    end.

(** The restore size a snapshot reports, if any. *)
Definition restoreSizeOf (vs : VolumeSnapshot) : option Quantity :=
  vs_Status vs ≫= vs_RestoreSize.

Definition claimSize (p : CSISnapshotExposeParam) (vs : VolumeSnapshot)
  : Quantity :=
  match restoreSizeOf vs with
  | Some size => if IsZero size then VolumeSize p else size
  | None => VolumeSize p
  end.

Definition claim_size_ok (p : CSISnapshotExposeParam)
  : list Event → Event → list Event → Prop :=
  λ pre ev _,
    match ev with
    | Ev e _ =>
        match e with
        | PersistentVolumeClaims_Create _ pvc =>
            ∃ volumeSnapshot,
              Ev (WaitVolumeSnapshotReady (SnapshotName p) (SourceNamespace p)
                    (ExposeTimeout p)) (Ok volumeSnapshot) ∈ pre ∧
              pvc_Requests (pvc_Spec pvc)
                = {[ ResourceStorage := claimSize p volumeSnapshot ]}
        | _ => True
        end
    end.

(** The SELinux options of the pod's security context. *)
Definition seLinuxOf (pod : Pod) : option SELinuxOptions :=
  SecurityContext (pod_Spec pod) ≫= SELinuxOptions_.

Definition spc_t : SELinuxOptions := {| se_Type := "spc_t" |}.

Definition ignoredRelabeling : Event :=
  Ev (Log Warn "Ignoring spcNoRelabling for read-write volume") tt.

(** The claim and the pod under a remap entry that asks to skip
    relabeling. *)
Definition override_ok (p : CSISnapshotExposeParam) (value : BackupPVC)
  : list Event → Event → list Event → Prop :=
  λ pre ev _,
    match ev with
    | Ev e _ =>
        match e with
        | PersistentVolumeClaims_Create _ pvc =>
            if bp_ReadOnly value then
              pvc_AccessModes (pvc_Spec pvc) = [ReadOnlyMany]
            else
              pvc_AccessModes (pvc_Spec pvc) = [ReadWriteOnce] ∧
              ignoredRelabeling ∈ pre
        | Pods_Create _ pod =>
            if bp_ReadOnly value then
              if decide (NodeOS p = NodeOSWindows)
              then seLinuxOf pod = None
              else seLinuxOf pod = Some spc_t
            else seLinuxOf pod = None
        | _ => True
        end
    end.



(** The contents, claims and pods a run asked to create. *)
Definition createdContents (tr : list Event) : list VolumeSnapshotContent :=
  omap (λ ev, match ev with
              | Ev (VolumeSnapshotContents_Create vsc) _ => Some vsc
              | _ => None
              end) tr.

Definition createdClaims (tr : list Event) : list PersistentVolumeClaim :=
  omap (λ ev, match ev with
              | Ev (PersistentVolumeClaims_Create _ pvc) _ => Some pvc
              | _ => None
              end) tr.

Definition createdPods (tr : list Event) : list Pod :=
  omap (λ ev, match ev with
              | Ev (Pods_Create _ pod) _ => Some pod
              | _ => None
              end) tr.

(** The four calls of [CleanUp]. *)
Definition cleanUpCalls (o : ObjectReference) (vsName sourceNamespace : string)
  : list Event :=
  [ Ev (DeletePodIfAny (or_Name o) (or_Namespace o)) tt;
    Ev (DeletePVAndPVCIfAny (or_Name o) (or_Namespace o) cleanUpTimeout) tt;
    Ev (DeleteVolumeSnapshotIfAny (or_Name o) (or_Namespace o)) tt;
    Ev (DeleteVolumeSnapshotIfAny vsName sourceNamespace) tt ].

(** After a failed [Expose] on the fake store ([w'] is the store it
    leaves): what was created is deleted again, content apart. *)
Definition rolled_back (o : ObjectReference) (w' : World)
  : list Event → Event → list Event → Prop :=
  λ _ ev post,
    match ev with
    | Ev e r =>
        match e in apiE T return T → Prop with
        | VolumeSnapshots_Create _ _ => λ r,
            match r with
            | Ok backupVS =>
                last post
                  = Some (Ev (DeleteVolumeSnapshotIfAny (Name (vs_Meta backupVS))
                                (Namespace (vs_Meta backupVS))) tt) ∧
                vss w' !! (or_Namespace o, or_Name o) = None
            | Fail _ => True
            end
        | PersistentVolumeClaims_Create _ _ => λ r,
            match r with
            | Ok backupPVC =>
                Ev (DeletePVAndPVCIfAny (Name (pvc_Meta backupPVC))
                      (Namespace (pvc_Meta backupPVC)) 0) tt ∈ post ∧
                pvcs w' !! (or_Namespace o, or_Name o) = None ∧
                pvs w' !! pvc_VolumeName (pvc_Spec backupPVC) = None
            | Fail _ => True
            end
        | Pods_Create _ _ => λ r, ∃ err, r = Fail err
        | DeletePodIfAny _ _ => λ _, False
        | VolumeSnapshotContents_Create _ => λ r,
            match r with
            | Ok backupVSC =>
                Name (vsc_Meta backupVSC) = or_Name o ∧
                vscs w' !! or_Name o = Some backupVSC
            | Fail _ => True
            end
        | EnsureDeleteVSC n _ => λ _, n ≠ or_Name o
        | _ => λ _, True
        end r
    end.

End EventProperties.

(** ** What a run tells about the fake store *)
Section Replay.
Context `{PassThrough}.

(** What the answer to a call tells about the store it was made on. *)
Definition told (ev : Event) (w : World) : Prop :=
  match ev with
  | Ev e r =>
      match e in apiE T return T → Prop with
      | WaitVolumeSnapshotReady name ns _ => λ r,
          match r with
          | Ok vs => vss w !! (ns, name) = Some vs
          | Fail _ => True
          end
      | GetVolumeSnapshotContentForVolumeSnapshot _ => λ r,
          match r with
          | Ok vsc => ∃ n, vscs w !! n = Some vsc
          | Fail _ => True
          end
      | RetainVSC vsc => λ r,
          match r with
          | (retained, None) =>
              ∃ c, vscs w !! Name (vsc_Meta vsc) = Some c ∧
                   retained = Some (retain c)
          | _ => True
          end
      | VolumeSnapshots_Create ns vs => λ r,
          match r with
          | Ok created =>
              created = vs ∧ vss w !! (ns, Name (vs_Meta vs)) = None
          | Fail _ => True
          end
      | VolumeSnapshotContents_Create vsc => λ r,
          match r with
          | Ok created =>
              created = vsc ∧ vscs w !! Name (vsc_Meta vsc) = None
          | Fail _ => True
          end
      | PersistentVolumeClaims_Create ns pvc => λ r,
          match r with
          | Ok created =>
              created = pvc ∧ pvcs w !! (ns, Name (pvc_Meta pvc)) = None
          | Fail _ => True
          end
      | Pods_Create ns pod => λ r,
          match r with
          | Ok created =>
              created = pod ∧ pods w !! (ns, Name (pod_Meta pod)) = None
          | Fail _ => True
          end
      | _ => λ _, True
      end r
  end.

(** What an answered call leaves of the store. *)
Definition effect (ev : Event) (w : World) : World :=
  match ev with
  | Ev e r =>
      match e in apiE T return T → World with
      | RetainVSC vsc => λ r,
          match r with
          | (retained, None) =>
              match retained with
              | Some c => set_vscs <[ Name (vsc_Meta vsc) := c ]> w
              | None => w
              end
          | (_, Some _) => w
          end
      | EnsureDeleteVS name ns _ => λ r,
          match r with
          | None => set_vss (delete (ns, name)) w
          | Some _ => w
          end
      | EnsureDeleteVSC name _ => λ r,
          match r with
          | None => set_vscs (delete name) w
          | Some _ => w
          end
      | DeleteVolumeSnapshotIfAny name ns => λ _,
          set_vss (delete (ns, name)) w
      | DeletePVAndPVCIfAny name ns _ => λ _,
          match pvcs w !! (ns, name) with
          | Some pvc =>
              set_pvs (delete (pvc_VolumeName (pvc_Spec pvc)))
                (set_pvcs (delete (ns, name)) w)
          | None => w
          end
      | DeletePodIfAny name ns => λ _, set_pods (delete (ns, name)) w
      | VolumeSnapshots_Create ns vs => λ r,
          match r with
          | Ok _ => set_vss <[ (ns, Name (vs_Meta vs)) := vs ]> w
          | Fail _ => w
          end
      | VolumeSnapshotContents_Create vsc => λ r,
          match r with
          | Ok _ => set_vscs <[ Name (vsc_Meta vsc) := vsc ]> w
          | Fail _ => w
          end
      | PersistentVolumeClaims_Create ns pvc => λ r,
          match r with
          | Ok _ => set_pvcs <[ (ns, Name (pvc_Meta pvc)) := pvc ]> w
          | Fail _ => w
          end
      | Pods_Create ns pod => λ r,
          match r with
          | Ok _ => set_pods <[ (ns, Name (pod_Meta pod)) := pod ]> w
          | Fail _ => w
          end
      | _ => λ _, w
      end r
  end.

(** The store after the calls of a run, and what their answers told on
    the way. *)
Fixpoint replay (tr : list Event) (w : World) : World :=
  match tr with
  | [] => w
  | ev :: tr' => replay tr' (effect ev w)
  end.

Fixpoint agrees (tr : list Event) (w : World) : Prop :=
  match tr with
  | [] => True
  | ev :: tr' => told ev w ∧ agrees tr' (effect ev w)
  end.

End Replay.

(** ** A sample deployment *)
Module Scenario.

(** Stand-ins for the payloads the exposer passes through. *)
Definition types : PassThrough :=
  {| LoadAffinity := unit; Affinity := unit; ResourceRequirements := unit;
     EnvVar := string * string; EnvFromSource := string;
     PodDNSConfig := unit; VolumeMount := string * string;
     VolumeDevice := string * string; OtherVolumeSource := string |}.
#[local] Existing Instance types.

(** Stand-ins for the imported constants and helpers: a claim is attached
    as a device in block mode and as a mount otherwise, under a path made
    of the volume name; a pod counts as unrecoverable when it carries the
    label [failed]. *)
Definition imports : Imports :=
  {| AccessModeFileSystem := "by-file-system";
     AccessModeBlock := "by-block-device";
     podGroupLabel := "velero.io/exposer-pod-group";
     podGroupSnapshot := "snapshot-exposer";
     NodeOSLabel := "kubernetes.io/os";
     NodeOSWindows := "windows";
     NodeOSLinux := "linux";
     MakePodPVCAttachment := λ volumeName volumeMode readOnly,
       if decide (volumeMode = Some PersistentVolumeBlock)
       then ([], [(volumeName, "/" +:+ volumeName)], "/" +:+ volumeName)
       else ([(volumeName, "/" +:+ volumeName)], [], "/" +:+ volumeName);
     ToSystemAffinity := λ _, Some tt;
     IsPodUnrecoverable := λ pod,
       match Labels (pod_Meta pod) !! "failed" with
       | Some message => (true, message)
       | None => (false, "")
       end;
     DiagnosePod := λ pod, "Pod " +:+ Name (pod_Meta pod) +:+ nl;
     DiagnosePVC := λ pvc, "PVC " +:+ Name (pvc_Meta pvc) +:+ nl;
     DiagnosePV := λ pv, "PV " +:+ Name (pv_Meta pv) +:+ nl;
     DiagnoseVS := λ vs, "VS " +:+ Name (vs_Meta vs) +:+ nl;
     DiagnoseVSC := λ vsc, "VSC " +:+ Name (vsc_Meta vsc) +:+ nl;
     DurationString := λ d, "10m0s" |}.
#[local] Existing Instance imports.

Definition Gi : Z := 1073741824.

Definition owner : ObjectReference :=
  {| or_Kind := "DataUpload"; or_Namespace := "velero";
     or_Name := "backup-7f3a"; or_UID := "uid-7f3a";
     or_APIVersion := "velero.io/v2alpha1"; or_ResourceVersion := "" |}.

Definition sourceVS : VolumeSnapshot :=
  {| vs_Meta :=
       {| Name := "snap-db-1"; Namespace := "app-ns"; UID := "uid-vs-1";
          ResourceVersion := "7"; Labels := ∅; Annotations := ∅;
          OwnerReferences := [] |};
     vs_Spec :=
       {| vs_Source := {| vss_PersistentVolumeClaimName := Some "db-data";
                          vss_VolumeSnapshotContentName := None |};
          vs_VolumeSnapshotClassName := Some "csi-snapclass" |};
     vs_Status :=
       Some {| vs_BoundVolumeSnapshotContentName := Some "snapcontent-1";
               vs_ReadyToUse := Some true;
               vs_RestoreSize := Some (12 * Gi) |} |}.

Definition sourceVSC : VolumeSnapshotContent :=
  {| vsc_Meta :=
       {| Name := "snapcontent-1"; Namespace := ""; UID := "uid-vsc-1";
          ResourceVersion := "8"; Labels := ∅; Annotations := ∅;
          OwnerReferences := [] |};
     vsc_Spec :=
       {| vsc_VolumeSnapshotRef :=
            {| or_Kind := "VolumeSnapshot"; or_Namespace := "app-ns";
               or_Name := "snap-db-1"; or_UID := "uid-vs-1";
               or_APIVersion := "snapshot.storage.k8s.io/v1";
               or_ResourceVersion := "7" |};
          vsc_Source := {| vscs_VolumeHandle := Some "vol-1";
                           vscs_SnapshotHandle := None |};
          vsc_DeletionPolicy := VolumeSnapshotContentDelete;
          vsc_Driver := "csi.example.com";
          vsc_VolumeSnapshotClassName := Some "csi-snapclass" |};
     vsc_Status := Some {| vsc_SnapshotHandle := Some "snap-handle-1";
                           vsc_ReadyToUse := Some true |} |}.

Definition store : World :=
  {| vss := {[ ("app-ns", "snap-db-1") := sourceVS ]};
     vscs := {[ "snapcontent-1" := sourceVSC ]};
     pvcs := ∅; pvs := ∅; pods := ∅;
     agent := {| image := "velero/velero:v1.16"; serviceAccount := "velero";
                 env := []; envFrom := []; volumeMounts := []; volumes := [];
                 logLevelArgs := ["--log-level=info"];
                 logFormatArgs := ["--log-format=text"];
                 dnsPolicy := "ClusterFirst"; dnsConfig := None |} |}.

(** The parameters of the exposure, by remap table and node OS. *)
Definition paramWith (remap : gmap string BackupPVC) (nodeOS : string)
  : CSISnapshotExposeParam :=
  {| SnapshotName := "snap-db-1"; SourceNamespace := "app-ns";
     AccessMode := "by-file-system"; StorageClass := "standard";
     HostingPodLabels := ∅; HostingPodAnnotations := ∅;
     OperationTimeout := 10 * Minute; ExposeTimeout := 30 * Minute;
     VolumeSize := 10 * Gi; ep_Affinity := None;
     BackupPVCConfig := remap; Resources := tt; NodeOS := nodeOS |}.

Definition param : CSISnapshotExposeParam := paramWith ∅ "linux".

Definition readOnlyNoRelabel : BackupPVC :=
  {| bp_StorageClass := ""; bp_ReadOnly := true; bp_SPCNoRelabeling := true |}.

(** A fault at the creation of the pod. *)
Definition podCreateFails : Reactor :=
  λ T e,
    match e with
    | Pods_Create _ _ => Some (New "pods is forbidden")
    | _ => None
    end.

(** The successful exposure, and the one that fails at the pod. *)
Definition exposed := exec (fake noFaults) (Expose owner param) store.
Definition rolledBack := exec (fake podCreateFails) (Expose owner param) store.

(** The exposure under a read-only remap entry that asks to skip
    relabeling, on a Linux and on a Windows node. *)
Definition remap : gmap string BackupPVC := {[ "standard" := readOnlyNoRelabel ]}.
Definition exposedLinux :=
  exec (fake noFaults) (Expose owner (paramWith remap "linux")) store.
Definition exposedWindows :=
  exec (fake noFaults) (Expose owner (paramWith remap "windows")) store.

(** The backup snapshot and the backup content of the exposure. *)
Definition backupVS : VolumeSnapshot :=
  {| vs_Meta :=
       {| Name := "backup-7f3a"; Namespace := "velero"; UID := "";
          ResourceVersion := ""; Labels := ∅; Annotations := ∅;
          OwnerReferences := [] |};
     vs_Spec :=
       {| vs_Source := {| vss_PersistentVolumeClaimName := None;
                          vss_VolumeSnapshotContentName := Some "backup-7f3a" |};
          vs_VolumeSnapshotClassName := Some "csi-snapclass" |};
     vs_Status := None |}.

Definition backupVSC : VolumeSnapshotContent :=
  {| vsc_Meta :=
       {| Name := "backup-7f3a"; Namespace := ""; UID := "";
          ResourceVersion := ""; Labels := ∅; Annotations := ∅;
          OwnerReferences := [] |};
     vsc_Spec :=
       {| vsc_VolumeSnapshotRef :=
            {| or_Kind := ""; or_Namespace := "velero";
               or_Name := "backup-7f3a"; or_UID := "";
               or_APIVersion := ""; or_ResourceVersion := "" |};
          vsc_Source := {| vscs_VolumeHandle := None;
                           vscs_SnapshotHandle := Some "snap-handle-1" |};
          vsc_DeletionPolicy := VolumeSnapshotContentDelete;
          vsc_Driver := "csi.example.com";
          vsc_VolumeSnapshotClassName := Some "csi-snapclass" |};
     vsc_Status := None |}.

Definition podForbidden : Err :=
  {| errReason := StatusReasonUnknown;
     Error := "error to create backup pod: pods is forbidden" |}.

(** [GetExposed] before any pod exists. *)
Definition onNode : CSISnapshotExposeWaitParam := {| wp_NodeName := "node-1" |}.
Definition notYetExposed :=
  exec (fake noFaults) (GetExposed owner Minute onNode) store.

(** The store after the exposure, with the hosting pod marked as failed,
    and [PeekExposed] on it. *)
Definition markFailed (pod : Pod) : Pod :=
  {| pod_Meta :=
       {| Name := Name (pod_Meta pod); Namespace := Namespace (pod_Meta pod);
          UID := UID (pod_Meta pod);
          ResourceVersion := ResourceVersion (pod_Meta pod);
          Labels := <[ "failed" := "crash loop" ]> (Labels (pod_Meta pod));
          Annotations := Annotations (pod_Meta pod);
          OwnerReferences := OwnerReferences (pod_Meta pod) |};
     pod_Spec := pod_Spec pod |}.
Definition failedStore : World := set_pods (fmap markFailed) exposed.1.2.
Definition peeked := exec (fake noFaults) (PeekExposed owner) failedStore.

End Scenario.

(** * Properties *)

(** ** Runs *)
Section Runs.
Context `{PassThrough}.

Lemma runs_bind {A B} (p : Prog A) (f : A → Prog B) tr b :
  runs (bind p f) tr b ↔
  ∃ tr1 a tr2, runs p tr1 a ∧ runs (f a) tr2 b ∧ tr = tr1 ++ tr2.
Proof.
  revert tr. induction p as [a|T e k IH]; intros tr; simpl.
  - split.
    + intros Hf. by exists [], a, tr.
    + intros (tr1 & a' & tr2 & [-> ->] & Hf & ->). done.
  - split.
    + intros (r & tr' & -> & Hk). apply IH in Hk as (tr1 & a & tr2 & H1 & H2 & ->).
      exists (Ev e r :: tr1), a, tr2. split; [|done]. by exists r, tr1.
    + intros (tr1 & a & tr2 & (r & tr' & -> & Hk) & Hf & ->).
      exists r, (tr' ++ tr2). split; [done|]. apply IH. by exists tr', a, tr2.
Qed.

Lemma runs_bind_assoc {A B C} (p : Prog A) (f : A → Prog B) (g : B → Prog C)
  tr c :
  runs (bind (bind p f) g) tr c → runs (bind p (λ x, bind (f x) g)) tr c.
Proof.
  revert tr. induction p as [a|T e k IH]; intros tr; simpl; [done|].
  intros (r & tr' & -> & Hk). exists r, tr'. eauto.
Qed.

Lemma runs_on_runs {W A} (h : Handler W) (p : Prog A) w tr a w' :
  runs_on h p w tr a w' → runs p tr a.
Proof.
  revert w tr. induction p as [a'|T e k IH]; intros w tr; simpl.
  - by intros (-> & -> & _).
  - intros (r & w1 & tr' & _ & -> & Hk). exists r, tr'. eauto.
Qed.

Lemma exec_runs_on {W A} (h : Handler W) (p : Prog A) w :
  runs_on h p w (exec h p w).2 (exec h p w).1.1 (exec h p w).1.2.
Proof.
  revert w. induction p as [a|T e k IH]; intros w; simpl; [done|].
  destruct (h T e w) as [r w1] eqn:Eh.
  specialize (IH r w1). destruct (exec h (k r) w1) as [[a w2] tr].
  by exists r, w1, tr.
Qed.

Lemma exec_runs_on_eq {W A} (h : Handler W) (p : Prog A) w a w' tr :
  exec h p w = (a, w', tr) → runs_on h p w tr a w'.
Proof. intros E. pose proof (exec_runs_on h p w) as Hr. by rewrite E in Hr. Qed.

Lemma exec_runs {W A} (h : Handler W) (p : Prog A) w :
  runs p (exec h p w).2 (exec h p w).1.1.
Proof. eapply runs_on_runs, exec_runs_on. Qed.

(** A handler is a function: it admits one run only. *)
Lemma runs_on_det {W A} (h : Handler W) (p : Prog A) w tr a w' :
  runs_on h p w tr a w' → exec h p w = (a, w', tr).
Proof.
  revert w tr. induction p as [a'|T e k IH]; intros w tr; simpl.
  - by intros (-> & -> & ->).
  - intros (r & w1 & tr' & -> & -> & Hk). by rewrite (IH _ _ _ Hk).
Qed.

Lemma splits_ok_elim R tr0 tr :
  splits_ok R tr0 tr →
  ∀ pre ev post, tr = pre ++ ev :: post → R (tr0 ++ pre) ev post.
Proof.
  revert tr0. induction tr as [|x tr IH]; intros tr0 Hs pre ev post E.
  - by destruct pre.
  - destruct Hs as [Hx Hs]. destruct pre as [|y pre]; simplify_eq/=.
    + by rewrite app_nil_r.
    + specialize (IH _ Hs _ _ _ eq_refl). by rewrite <- app_assoc in IH.
Qed.

Lemma splits_ok_elem R tr :
  splits_ok R [] tr →
  ∀ ev, ev ∈ tr → ∃ pre post, tr = pre ++ ev :: post ∧ R pre ev post.
Proof.
  intros Hs ev (pre & post & ->)%list_elem_of_split.
  exists pre, post. split; [done|]. exact (splits_ok_elim _ _ _ Hs _ _ _ eq_refl).
Qed.

End Runs.

(** Walking through the runs of a program: each call is answered by a
    fresh value, each branch on an answer is split. *)
Ltac blocker p :=
  lazymatch p with
  | bind ?q _ => blocker q
  | match ?x with _ => _ end => blocker x
  | _ => p
  end.

Ltac split_on b := tryif is_var b then destruct b else destruct b eqn:?.

Ltac no_unit r :=
  try lazymatch type of r with unit => destruct r end.

(** The two blocks of [Expose] that compute the volume size and the
    settings of the claim only log: their runs are set aside as they
    are met, and split once the calls after them are walked through. *)
Ltac innermost p :=
  lazymatch p with
  | bind ?q _ => innermost q
  | _ => p
  end.

Ltac only_logs q :=
  lazymatch q with
  | match vs_RestoreSize _ with _ => _ end => idtac
  | match BackupPVCConfig _ !! _ with _ => _ end => idtac
  end.

Ltac set_aside H :=
  lazymatch type of H with
  | runs ?p _ _ => let q := innermost p in only_logs q
  end;
  repeat (lazymatch type of H with
          | runs (bind (bind _ _) _) _ _ => apply runs_bind_assoc in H
          end);
  let tr1 := fresh "tr" in
  let a := fresh "a" in
  let tr2 := fresh "tr" in
  let Hlater := fresh "Hlater" in
  apply runs_bind in H as (tr1 & a & tr2 & Hlater & H & ->).

Ltac run_step H :=
  cbn in H;
  lazymatch type of H with
  | ∃ _, _ =>
      let r := fresh "r" in
      let tr := fresh "tr" in
      destruct H as (r & tr & -> & H); no_unit r
  | _ ∧ _ => let Ha := fresh "Ha" in destruct H as [-> Ha]; try subst
  | runs ?p _ _ => first [ set_aside H | let b := blocker p in split_on b ]
  end.

Ltac unfold_exposer H :=
  unfold Expose, GetExposed, PeekExposed, DiagnoseExpose, CleanUp,
    createBackupVS, createBackupVSC, createBackupPVC, createBackupPod,
    getVolumeModeByAccessMode, with_defer, return_, panic_ in H.

Ltac explore H :=
  unfold_exposer H; repeat run_step H;
  repeat match goal with Hlater : runs _ _ _ |- _ => repeat run_step Hlater end.

(** The same against a handler: the answer of each call is computed, and
    split where it depends on the store or on the injected faults. *)
Ltac answer Hh :=
  cbn in Hh;
  repeat (lazymatch type of Hh with
          | (match ?x with _ => _ end) = _ =>
              let b := blocker x in split_on b; cbn in Hh
          end);
  simplify_eq.

Ltac run_on_step H :=
  cbn in H;
  lazymatch type of H with
  | ∃ _, _ =>
      let r := fresh "r" in
      let w := fresh "w" in
      let tr := fresh "tr" in
      let Hh := fresh "Hh" in
      destruct H as (r & w & tr & Hh & -> & H); answer Hh
  | _ ∧ _ => destruct H as (-> & ? & ->); simplify_eq
  | runs_on _ ?p _ _ _ _ => let b := blocker p in split_on b
  end.

Ltac explore_on H := unfold_exposer H; repeat run_on_step H.

Ltac find_event :=
  repeat first [ apply list_elem_of_here | apply list_elem_of_further ].

Ltac check_splits := cbn; repeat split; try done.


(** ** The runs of [Expose], whatever the answers *)
Section ExposeRuns.
Context `{Imports}.

(** C1, as amended: the backup content that [Expose] creates copies
    driver and snapshot handle from the source content and refers to the
    backup snapshot, and its deletion policy is Delete. *)
Theorem Expose_backup_content_delete_policy o p tr c :
  runs (Expose o p) tr c →
  ∀ pre vsc r post,
    tr = pre ++ Ev (VolumeSnapshotContents_Create vsc) r :: post →
    ∃ volumeSnapshot sourceVSC vs backupVS,
      Ev (GetVolumeSnapshotContentForVolumeSnapshot volumeSnapshot)
         (Ok sourceVSC) ∈ pre ∧
      Ev (VolumeSnapshots_Create (or_Namespace o) vs) (Ok backupVS) ∈ pre ∧
      copiedFrom sourceVSC backupVS vsc ∧
      vsc_DeletionPolicy (vsc_Spec vsc) = VolumeSnapshotContentDelete.
Proof.
  intros Hr.
  cut (splits_ok (backup_content_is VolumeSnapshotContentDelete o) [] tr).
  { intros Hs pre vsc r post E. exact (splits_ok_elim _ _ _ Hs _ _ _ E). }
  explore Hr; check_splits.
  all: do 4 eexists; split_and!; [find_event | find_event | | done].
  all: eexists; split_and!; [eassumption | done..].
Qed.

(** C3: in every run of [Expose], a delete of the source content has a
    successful RetainVSC of that content before it. *)
Theorem Expose_retains_before_delete o p tr c :
  runs (Expose o p) tr c →
  ∀ pre n t r post,
    tr = pre ++ Ev (EnsureDeleteVSC n t) r :: post →
    ∃ vsc retained,
      Ev (RetainVSC vsc) (retained, None) ∈ pre ∧ Name (vsc_Meta vsc) = n.
Proof.
  intros Hr.
  cut (splits_ok retain_first [] tr).
  { intros Hs pre n t r post E. exact (splits_ok_elim _ _ _ Hs _ _ _ E). }
  explore Hr; check_splits.
  all: do 2 eexists; split; [find_event | done].
Qed.

(** C6: the claim [Expose] creates requests the restore size the source
    snapshot reports when there is one and it is not zero, and the
    caller's volume size otherwise. *)
Theorem Expose_claim_size o p tr c :
  runs (Expose o p) tr c →
  ∀ pre ns pvc r post,
    tr = pre ++ Ev (PersistentVolumeClaims_Create ns pvc) r :: post →
    ∃ volumeSnapshot,
      Ev (WaitVolumeSnapshotReady (SnapshotName p) (SourceNamespace p)
            (ExposeTimeout p)) (Ok volumeSnapshot) ∈ pre ∧
      pvc_Requests (pvc_Spec pvc)
        = {[ ResourceStorage := claimSize p volumeSnapshot ]}.
Proof.
  intros Hr.
  cut (splits_ok (claim_size_ok p) [] tr).
  { intros Hs pre ns pvc r post E. exact (splits_ok_elim _ _ _ Hs _ _ _ E). }
  explore Hr; check_splits.
  all: eexists; split; [find_event |].
  all: unfold claimSize, restoreSizeOf;
    repeat match goal with E : _ = _ |- _ => rewrite E end; cbn;
    repeat match goal with E : _ = _ |- _ => rewrite E end; cbn; try done.
  all: try (destruct (IsZero _); done).
Qed.

End ExposeRuns.
Section ExposeRuns2.
Context `{Imports}.

(** C4, as amended: under a remap entry that asks to skip relabeling, a
    read-only entry gives a ReadOnlyMany claim and, unless the node OS is
    Windows, a pod with SELinux type spc_t (on Windows the pod carries no
    SELinux options); a read-write entry gives a ReadWriteOnce claim, a pod
    without SELinux options, and the warning is logged before the claim
    is created. *)
Theorem Expose_relabel_override o p value tr c :
  BackupPVCConfig p !! StorageClass p = Some value →
  bp_SPCNoRelabeling value = true →
  runs (Expose o p) tr c →
  (bp_ReadOnly value = true →
     (∀ ns pvc r, Ev (PersistentVolumeClaims_Create ns pvc) r ∈ tr →
        pvc_AccessModes (pvc_Spec pvc) = [ReadOnlyMany]) ∧
     (∀ ns pod r, Ev (Pods_Create ns pod) r ∈ tr →
        seLinuxOf pod
          = if decide (NodeOS p = NodeOSWindows) then None else Some spc_t)) ∧
  (bp_ReadOnly value = false →
     (∀ pre ns pvc r post,
        tr = pre ++ Ev (PersistentVolumeClaims_Create ns pvc) r :: post →
        pvc_AccessModes (pvc_Spec pvc) = [ReadWriteOnce] ∧
        ignoredRelabeling ∈ pre) ∧
     (∀ ns pod r, Ev (Pods_Create ns pod) r ∈ tr → seLinuxOf pod = None)).
Proof.
  intros Hcfg Hspc Hr.
  assert (splits_ok (override_ok p value) [] tr) as Hs.
  { explore Hr; simplify_eq; check_splits.
    all: try rewrite Hspc in *; try done.
    all: repeat match goal with E : bp_ReadOnly _ = _ |- _ => rewrite E end.
    all: try (split; [done|]).
    all: try find_event.
    all: try (repeat case_decide; done).
  }
  split; intros Hro; split.
  - intros ns pvc r (pre & post & E & HR)%(splits_ok_elem _ _ Hs).
    cbn in HR. by rewrite Hro in HR.
  - intros ns pod r (pre & post & E & HR)%(splits_ok_elem _ _ Hs).
    cbn in HR. rewrite Hro in HR. by case_decide.
  - intros pre ns pvc r post E.
    pose proof (splits_ok_elim _ _ _ Hs _ _ _ E) as HR.
    cbn in HR. by rewrite Hro in HR.
  - intros ns pod r (pre & post & E & HR)%(splits_ok_elem _ _ Hs).
    cbn in HR. by rewrite Hro in HR.
Qed.
End ExposeRuns2.
Section Naming.
Context `{Imports}.




End Naming.
Section Lookups.
Context `{Imports}.

(** C7: [GetExposed] first looks the hosting pod up; on a not-found
    answer it returns (nil, nil), on any other failure (nil, err) with
    the wrapped, non-nil error. *)
Theorem GetExposed_not_found_is_no_error o timeout wp tr result :
  runs (GetExposed o timeout wp) tr result →
  ∃ r rest,
    tr = Ev (NodeClient_Get {| nn_Namespace := or_Namespace o;
                               nn_Name := or_Name o |}) r :: rest ∧
    ∀ err, r = Fail err →
      if IsNotFound (Some err) then result = (None, None)
      else
        result = (None, Some (WrapErr err ("error to get backup pod " +:+ or_Name o))) ∧
        result.2 ≠ None.
Proof.
  intros Hr. unfold GetExposed in Hr. cbn in Hr.
  destruct Hr as (r & rest & -> & Hr). exists r, rest. split; [done|].
  intros err ->. cbn in Hr.
  destruct (IsNotFound (Some err)).
  - cbn in Hr. by destruct Hr as (? & ? & -> & -> & ->).
  - cbn in Hr. by destruct Hr as [-> ->].
Qed.

(** C8: [PeekExposed] looks the hosting pod up by the owner's name; it
    returns nil when the pod is not found, nil after a warning on any
    other failure, and otherwise an error with the classifier's message
    exactly when the classifier says the pod is unrecoverable. *)
Theorem PeekExposed_reports_unrecoverable_only o tr result :
  runs (PeekExposed o) tr result →
  ∃ r,
    match r with
    | Fail err =>
        result = None ∧
        tr = Ev (Pods_Get (or_Namespace o) (or_Name o)) r ::
             if IsNotFound (Some err) then []
             else [Ev (Log Warn "error to peek backup pod %s") tt]
    | Ok pod =>
        tr = [Ev (Pods_Get (or_Namespace o) (or_Name o)) r] ∧
        result = if (IsPodUnrecoverable pod).1
                 then Some (New (IsPodUnrecoverable pod).2)
                 else None
    end.
Proof.
  intros Hr. unfold PeekExposed in Hr. cbn in Hr.
  destruct Hr as (r & rest & -> & Hr). exists r.
  destruct r as [pod|err]; cbn in Hr.
  - destruct (IsPodUnrecoverable pod) as [[] message]; cbn in *;
      by destruct Hr as [-> ->].
  - destruct (IsNotFound (Some err)); cbn in Hr.
    + by destruct Hr as [-> ->].
    + by destruct Hr as ([] & ? & -> & -> & ->).
Qed.

End Lookups.
Section ReplayFacts.
Context `{PassThrough}.

Lemma fake_step f T (e : apiE T) w r w' :
  fake f T e w = (r, w') → told (Ev e r) w ∧ w' = effect (Ev e r) w.
Proof.
  destruct e; cbn; intros Hh;
    repeat (lazymatch type of Hh with
            | (match ?x with _ => _ end) = _ => destruct x eqn:?
            end);
    simplify_eq; cbn; eauto.
  all: destruct r as [[]|]; done.
Qed.

Lemma runs_on_replay {A} f (p : Prog A) w tr a w' :
  runs_on (fake f) p w tr a w' → agrees tr w ∧ w' = replay tr w.
Proof.
  revert w tr. induction p as [a'|T e k IH]; intros w tr; simpl.
  - by intros (-> & _ & ->).
  - intros (r & w1 & tr' & Hh & -> & Hk).
    apply fake_step in Hh as [Htold ->]. apply IH in Hk as [Hag ->]. done.
Qed.

End ReplayFacts.

Section Rollback.
Context `{Imports}.

Ltac use_wf Hvs Hvsc :=
  repeat match goal with
    | E : vss _ !! (_, _) = Some _ |- _ =>
        destruct (Hvs _ _ _ E) as [? ?]; clear E
    | E : vscs _ !! _ = Some _ |- _ => pose proof (Hvsc _ _ E); clear E
    end.

(** C2: on the fake store, whatever faults are injected, when [Expose]
    returns an error after the backup snapshot was created, its last call
    deletes that snapshot, which is gone from the store; a claim that was
    created is deleted with its volume; no pod was created and none is
    deleted; the backup content that was created is still in the store,
    and no delete of a content names it. *)
Theorem Expose_rolls_back f w o p err w' tr :
  wf w →
  runs_on (fake f) (Expose o p) w tr (Returned (Some err)) w' →
  (∀ pre ns vs backupVS post,
     tr = pre ++ Ev (VolumeSnapshots_Create ns vs) (Ok backupVS) :: post →
     last post = Some (Ev (DeleteVolumeSnapshotIfAny (Name (vs_Meta backupVS))
                             (Namespace (vs_Meta backupVS))) tt) ∧
     vss w' !! (or_Namespace o, or_Name o) = None) ∧
  (∀ pre ns pvc backupPVC post,
     tr = pre ++ Ev (PersistentVolumeClaims_Create ns pvc) (Ok backupPVC) :: post →
     Ev (DeletePVAndPVCIfAny (Name (pvc_Meta backupPVC))
           (Namespace (pvc_Meta backupPVC)) 0) tt ∈ post ∧
     pvcs w' !! (or_Namespace o, or_Name o) = None ∧
     pvs w' !! pvc_VolumeName (pvc_Spec backupPVC) = None) ∧
  (∀ ns pod r, Ev (Pods_Create ns pod) r ∈ tr → ∃ e, r = Fail e) ∧
  (∀ name ns, Ev (DeletePodIfAny name ns) tt ∉ tr) ∧
  pods w' = pods w ∧
  (∀ pre vsc backupVSC post,
     tr = pre ++ Ev (VolumeSnapshotContents_Create vsc) (Ok backupVSC) :: post →
     Name (vsc_Meta backupVSC) = or_Name o ∧
     vscs w' !! or_Name o = Some backupVSC) ∧
  (∀ n t r, Ev (EnsureDeleteVSC n t) r ∈ tr → n ≠ or_Name o).
Proof.
  intros [Hvs Hvsc] Hr.
  assert (splits_ok (rolled_back o w') [] tr ∧ pods w' = pods w) as [Hs Hpods].
  { destruct (runs_on_replay _ _ _ _ _ _ Hr) as [Hag ->].
    apply runs_on_runs in Hr.
    remember (Returned (Some err)) as c eqn:Ec.
    explore Hr; try discriminate Ec.
    all: cbn in Hag;
      repeat match goal with
        | H : ∃ _, _ |- _ => destruct H as [? H]
        | H : _ ∧ _ |- _ => destruct H as [? ?]
        | H : True |- _ => clear H
        end; simplify_eq.
    all: repeat match goal with
        | E1 : vscs ?w !! ?x = Some _, E2 : vscs ?w !! ?y = None |- _ =>
            assert (x ≠ y) by congruence; clear E2
        | E1 : vss ?w !! ?x = Some _, E2 : vss ?w !! ?y = None |- _ =>
            assert (x ≠ y) by congruence; clear E2
        end; use_wf Hvs Hvsc; simplify_eq.
    all: check_splits.
    all: try find_event.
    all: try by eexists.
    all: cbn; rewrite ?lookup_insert_eq; cbn;
      repeat first [ rewrite lookup_delete_eq | rewrite lookup_insert_eq
                   | rewrite lookup_delete_ne by congruence
                   | rewrite lookup_insert_ne by congruence ]; done. }
  split_and!; [| | | | done | |].
  - intros pre ns vs backupVS post E.
    exact (splits_ok_elim _ _ _ Hs _ _ _ E).
  - intros pre ns pvc backupPVC post E.
    exact (splits_ok_elim _ _ _ Hs _ _ _ E).
  - by intros ns pod r (pre & post & _ & HR)%(splits_ok_elem _ _ Hs).
  - by intros name ns (pre & post & _ & HR)%(splits_ok_elem _ _ Hs).
  - intros pre vsc backupVSC post E.
    exact (splits_ok_elim _ _ _ Hs _ _ _ E).
  - by intros n t r (pre & post & _ & HR)%(splits_ok_elem _ _ Hs).
Qed.

(** C5: [CleanUp] issues its four deletes whatever they answer and returns
    nothing; on the fake store, from any state, none of the four targets is
    left, and a second call changes nothing. *)
Theorem CleanUp_is_unconditional_and_idempotent o vsName sourceNamespace :
  (∀ tr u, runs (CleanUp o vsName sourceNamespace) tr u →
     tr = cleanUpCalls o vsName sourceNamespace) ∧
  (∀ f w, ∃ w1,
     runs_on (fake f) (CleanUp o vsName sourceNamespace) w
       (cleanUpCalls o vsName sourceNamespace) tt w1 ∧
     pods w1 !! (or_Namespace o, or_Name o) = None ∧
     pvcs w1 !! (or_Namespace o, or_Name o) = None ∧
     vss w1 !! (or_Namespace o, or_Name o) = None ∧
     vss w1 !! (sourceNamespace, vsName) = None ∧
     runs_on (fake f) (CleanUp o vsName sourceNamespace) w1
       (cleanUpCalls o vsName sourceNamespace) tt w1).
Proof.
  split.
  - intros tr u Hr. by explore Hr.
  - intros f w.
    pose proof (exec_runs_on (fake f) (CleanUp o vsName sourceNamespace) w) as Hr.
    destruct (exec _ _ w) as [[[] w1] tr] eqn:Ex; cbn [fst snd] in Hr.
    assert (tr = cleanUpCalls o vsName sourceNamespace) as ->.
    { apply runs_on_runs in Hr. by explore Hr. }
    exists w1. split; [done|].
    destruct (runs_on_replay _ _ _ _ _ _ Hr) as [_ Hw1].
    assert (pods w1 !! (or_Namespace o, or_Name o) = None ∧
            pvcs w1 !! (or_Namespace o, or_Name o) = None ∧
            vss w1 !! (or_Namespace o, or_Name o) = None ∧
            vss w1 !! (sourceNamespace, vsName) = None) as (Hpod & Hpvc & Hvs1 & Hvs2).
    { subst w1. cbn.
      destruct (pvcs w !! (or_Namespace o, or_Name o)) eqn:Epvc; cbn;
        rewrite ?lookup_delete_eq; split_and!; try done.
      all: rewrite !lookup_delete; by repeat case_decide. }
    split_and!; [done..|].
    pose proof (exec_runs_on (fake f) (CleanUp o vsName sourceNamespace) w1) as Hr2.
    destruct (exec _ _ w1) as [[[] w2] tr2] eqn:Ex2; cbn [fst snd] in Hr2.
    assert (tr2 = cleanUpCalls o vsName sourceNamespace) as ->.
    { apply runs_on_runs in Hr2. by explore Hr2. }
    destruct (runs_on_replay _ _ _ _ _ _ Hr2) as [_ Hw2].
    replace w2 with w1 in Hr2; [done|].
    rewrite Hw2. clear -Hpod Hpvc Hvs1 Hvs2.
    destruct w1 as [snapshots contents claims volumes hosts info]; cbn in *.
    rewrite Hpvc. unfold set_vss, set_pods; cbn.
    by rewrite (delete_id hosts), (delete_id snapshots (or_Namespace o, or_Name o)),
      (delete_id snapshots) by done.
Qed.

End Rollback.
(** ** The sample deployment *)
Section Samples.
Import Scenario.
#[local] Existing Instance types.
#[local] Existing Instance imports.

Lemma store_wf : wf store.
Proof.
  split.
  - intros ns n vs Hl. cbn in Hl.
    by apply lookup_singleton_Some in Hl as [[= <- <-] <-].
  - intros n vsc Hl. cbn in Hl.
    by apply lookup_singleton_Some in Hl as [<- <-].
Qed.

(** The successful exposure of the sample, object by object. *)
Example exposed_objects :
  exposed.1.1 = Returned None ∧
  createdContents exposed.2 = [backupVSC] ∧
  vss exposed.1.2 !! ("velero", "backup-7f3a") = Some backupVS ∧
  vss exposed.1.2 !! ("app-ns", "snap-db-1") = None ∧
  vscs exposed.1.2 !! "snapcontent-1" = None ∧
  (pvc_Requests ∘ pvc_Spec) <$> createdClaims exposed.2
    = [ {[ ResourceStorage := 12 * Gi ]} ] ∧
  (Name ∘ pod_Meta) <$> createdPods exposed.2 = ["backup-7f3a"].
Proof. vm_compute. by repeat split. Qed.

(** Witness of C1: the content of the sample exposure. *)
Lemma Expose_backup_content_witness :
  runs (Expose owner param) exposed.2 exposed.1.1 ∧
  exposed.2 = take 7 exposed.2
              ++ Ev (VolumeSnapshotContents_Create backupVSC) (Ok backupVSC)
              :: drop 8 exposed.2 ∧
  ∃ volumeSnapshot sourceVSC vs backupVS,
    Ev (GetVolumeSnapshotContentForVolumeSnapshot volumeSnapshot)
       (Ok sourceVSC) ∈ take 7 exposed.2 ∧
    Ev (VolumeSnapshots_Create (or_Namespace owner) vs) (Ok backupVS)
      ∈ take 7 exposed.2 ∧
    copiedFrom sourceVSC backupVS backupVSC ∧
    vsc_DeletionPolicy (vsc_Spec backupVSC) = VolumeSnapshotContentDelete.
Proof.
  assert (exposed.2 = take 7 exposed.2
              ++ Ev (VolumeSnapshotContents_Create backupVSC) (Ok backupVSC)
              :: drop 8 exposed.2) as E by (vm_compute; reflexivity).
  split; [apply exec_runs|]. split; [exact E|].
  exact (Expose_backup_content_delete_policy owner param _ _
           (exec_runs _ _ _) _ _ _ _ E).
Defined.

(** C1 as stated fails on the sample exposure: the one content that is
    created has deletion policy Delete, not Retain. *)
Lemma Expose_backup_content_is_not_retained :
  runs (Expose owner param) exposed.2 exposed.1.1 ∧
  exposed.1.1 = Returned None ∧
  (vsc_DeletionPolicy ∘ vsc_Spec) <$> createdContents exposed.2
    = [VolumeSnapshotContentDelete] ∧
  VolumeSnapshotContentDelete ≠ VolumeSnapshotContentRetain.
Proof.
  split; [apply exec_runs|]. split; [by vm_compute|].
  split; [by vm_compute|]. discriminate.
Qed.

(** Witness of C3: the delete of the source content in the sample. *)
Lemma Expose_retains_before_delete_witness :
  runs (Expose owner param) exposed.2 exposed.1.1 ∧
  exposed.2 = take 13 exposed.2
              ++ Ev (EnsureDeleteVSC "snapcontent-1" (10 * Minute)) None
              :: drop 14 exposed.2 ∧
  ∃ vsc retained,
    Ev (RetainVSC vsc) (retained, None) ∈ take 13 exposed.2 ∧
    Name (vsc_Meta vsc) = "snapcontent-1".
Proof.
  assert (exposed.2 = take 13 exposed.2
              ++ Ev (EnsureDeleteVSC "snapcontent-1" (10 * Minute)) None
              :: drop 14 exposed.2) as E by (vm_compute; reflexivity).
  split; [apply exec_runs|]. split; [exact E|].
  exact (Expose_retains_before_delete owner param _ _
           (exec_runs _ _ _) _ _ _ _ _ E).
Defined.

(** The claim of the sample exposure. *)
Definition backupPVC : PersistentVolumeClaim :=
  {| pvc_Meta :=
       {| Name := "backup-7f3a"; Namespace := "velero"; UID := "";
          ResourceVersion := ""; Labels := ∅; Annotations := ∅;
          OwnerReferences :=
            [ {| ow_APIVersion := "velero.io/v2alpha1"; ow_Kind := "DataUpload";
                 ow_Name := "backup-7f3a"; ow_UID := "uid-7f3a";
                 ow_Controller := Some true |} ] |};
     pvc_Spec :=
       {| pvc_AccessModes := ["ReadWriteOnce"];
          pvc_StorageClassName := Some "standard";
          pvc_VolumeMode := Some "Filesystem";
          pvc_DataSource :=
            Some {| tl_APIGroup := Some "snapshot.storage.k8s.io";
                    tl_Kind := "VolumeSnapshot"; tl_Name := "backup-7f3a" |};
          pvc_DataSourceRef := None;
          pvc_Requests := {[ "storage" := 12 * Gi ]};
          pvc_VolumeName := "" |} |}.

(** Witness of C6: the claim of the sample asks for the 12Gi the source
    snapshot reports, not for the 10Gi of the parameters. *)
Lemma Expose_claim_size_witness :
  runs (Expose owner param) exposed.2 exposed.1.1 ∧
  exposed.2 = take 15 exposed.2
              ++ Ev (PersistentVolumeClaims_Create "velero" backupPVC) (Ok backupPVC)
              :: drop 16 exposed.2 ∧
  ∃ volumeSnapshot,
    Ev (WaitVolumeSnapshotReady (SnapshotName param) (SourceNamespace param)
          (ExposeTimeout param)) (Ok volumeSnapshot) ∈ take 15 exposed.2 ∧
    pvc_Requests (pvc_Spec backupPVC)
      = {[ ResourceStorage := claimSize param volumeSnapshot ]}.
Proof.
  assert (exposed.2 = take 15 exposed.2
              ++ Ev (PersistentVolumeClaims_Create "velero" backupPVC) (Ok backupPVC)
              :: drop 16 exposed.2) as E by (vm_compute; reflexivity).
  split; [apply exec_runs|]. split; [exact E|].
  exact (Expose_claim_size owner param _ _ (exec_runs _ _ _) _ _ _ _ _ E).
Defined.


(** Witness of C4: under the read-only entry that skips relabeling, on a
    Linux node. *)
Lemma Expose_relabel_override_witness :
  BackupPVCConfig (paramWith remap "linux") !! StorageClass (paramWith remap "linux")
    = Some readOnlyNoRelabel ∧
  bp_SPCNoRelabeling readOnlyNoRelabel = true ∧
  runs (Expose owner (paramWith remap "linux")) exposedLinux.2 exposedLinux.1.1 ∧
  (pvc_AccessModes ∘ pvc_Spec) <$> createdClaims exposedLinux.2 = [[ReadOnlyMany]] ∧
  seLinuxOf <$> createdPods exposedLinux.2 = [Some spc_t] ∧
  ∀ ns pod r, Ev (Pods_Create ns pod) r ∈ exposedLinux.2 →
    seLinuxOf pod = Some spc_t.
Proof.
  assert (BackupPVCConfig (paramWith remap "linux")
            !! StorageClass (paramWith remap "linux") = Some readOnlyNoRelabel)
    as Hcfg by (vm_compute; reflexivity).
  destruct (Expose_relabel_override owner (paramWith remap "linux")
              readOnlyNoRelabel _ _ Hcfg eq_refl
              (exec_runs (fake noFaults)
                 (Expose owner (paramWith remap "linux")) store))
    as [Hro _].
  destruct (Hro eq_refl) as [_ Hpod].
  split; [exact Hcfg|]. split; [reflexivity|]. split; [apply exec_runs|].
  split; [by vm_compute|]. split; [by vm_compute|].
  exact Hpod.
Defined.

(** C4 as stated fails on a Windows node: under the same entry the claim
    is read-only, and the one pod that is created carries no SELinux
    options. *)
Lemma Expose_no_relabel_skip_on_windows :
  BackupPVCConfig (paramWith remap "windows")
    !! StorageClass (paramWith remap "windows") = Some readOnlyNoRelabel ∧
  bp_ReadOnly readOnlyNoRelabel = true ∧
  bp_SPCNoRelabeling readOnlyNoRelabel = true ∧
  runs (Expose owner (paramWith remap "windows"))
    exposedWindows.2 exposedWindows.1.1 ∧
  exposedWindows.1.1 = Returned None ∧
  (pvc_AccessModes ∘ pvc_Spec) <$> createdClaims exposedWindows.2
    = [[ReadOnlyMany]] ∧
  seLinuxOf <$> createdPods exposedWindows.2 = [None] ∧
  None ≠ Some spc_t.
Proof.
  split; [by vm_compute|]. do 2 (split; [reflexivity|]).
  split; [apply exec_runs|]. do 3 (split; [by vm_compute|]). discriminate.
Qed.

(** Witness of C2: the sample exposure with a fault at the creation of
    the pod. *)
Lemma Expose_rolls_back_witness :
  wf store ∧
  runs_on (fake podCreateFails) (Expose owner param) store
    rolledBack.2 (Returned (Some podForbidden)) rolledBack.1.2 ∧
  vss rolledBack.1.2 !! ("velero", "backup-7f3a") = None ∧
  pvcs rolledBack.1.2 !! ("velero", "backup-7f3a") = None ∧
  pods rolledBack.1.2 = ∅ ∧
  vscs rolledBack.1.2 !! "backup-7f3a" = Some backupVSC.
Proof.
  assert (runs_on (fake podCreateFails) (Expose owner param) store
            rolledBack.2 (Returned (Some podForbidden)) rolledBack.1.2) as Hr.
  { apply exec_runs_on_eq. vm_compute. reflexivity. }
  destruct (Expose_rolls_back _ _ _ _ _ _ _ store_wf Hr)
    as (Hvs & Hpvc & _ & _ & Hpods & Hvsc & _).
  split; [exact store_wf|]. split; [exact Hr|]. split_and!.
  - refine (proj2 (Hvs (take 5 rolledBack.2) "velero" backupVS backupVS
                     (drop 6 rolledBack.2) _)).
    vm_compute. reflexivity.
  - refine (proj1 (proj2 (Hpvc (take 15 rolledBack.2) "velero" backupPVC backupPVC
                     (drop 16 rolledBack.2) _))).
    vm_compute. reflexivity.
  - exact Hpods.
  - refine (proj2 (Hvsc (take 7 rolledBack.2) backupVSC backupVSC
                     (drop 8 rolledBack.2) _)).
    vm_compute. reflexivity.
Defined.

(** Witness of C7: no pod yet in the sample store. *)
Lemma GetExposed_not_found_witness :
  runs (GetExposed owner Minute onNode) notYetExposed.2 notYetExposed.1.1 ∧
  notYetExposed.1.1 = (None, None) ∧
  ∃ r rest,
    notYetExposed.2
      = Ev (NodeClient_Get {| nn_Namespace := or_Namespace owner;
                              nn_Name := or_Name owner |}) r :: rest ∧
    ∀ err, r = Fail err →
      if IsNotFound (Some err) then notYetExposed.1.1 = (None, None)
      else
        notYetExposed.1.1
          = (None, Some (WrapErr err ("error to get backup pod " +:+ or_Name owner))) ∧
        notYetExposed.1.1.2 ≠ None.
Proof.
  pose proof (exec_runs (fake noFaults) (GetExposed owner Minute onNode) store)
    as Hr.
  split; [exact Hr|]. split; [by vm_compute|].
  exact (GetExposed_not_found_is_no_error owner Minute _ _ _ Hr).
Defined.

(** Witness of C8: a pod that the classifier gives up on. *)
Lemma PeekExposed_witness :
  runs (PeekExposed owner) peeked.2 peeked.1.1 ∧
  peeked.1.1 = Some (New "crash loop") ∧
  ∃ r,
    match r with
    | Fail err =>
        peeked.1.1 = None ∧
        peeked.2
          = Ev (Pods_Get (or_Namespace owner) (or_Name owner)) r ::
            if IsNotFound (Some err) then []
            else [Ev (Log Warn "error to peek backup pod %s") tt]
    | Ok pod =>
        peeked.2 = [Ev (Pods_Get (or_Namespace owner) (or_Name owner)) r] ∧
        peeked.1.1 = if (IsPodUnrecoverable pod).1
                     then Some (New (IsPodUnrecoverable pod).2)
                     else None
    end.
Proof.
  pose proof (exec_runs (fake noFaults) (PeekExposed owner) failedStore) as Hr.
  split; [exact Hr|]. split; [by vm_compute|].
  exact (PeekExposed_reports_unrecoverable_only owner _ _ Hr).
Defined.

End Samples.
